(** * GROOPS: Earth rotation (IERS 2010) and tidal force aggregation

    A shallow embedding of
    - [source/classes/earthRotation/earthRotationIers2010.cpp]
      (constructor and [earthOrientationParameter]) and
    - [source/classes/tides/tides.cpp]
      (the [Tides] aggregator, the [TidesBase] default methods and
      [TidesBase::deformationMatrix]),
    together with the properties of the system description that concern
    them.

    Conventions of the embedding.
    - [Double] arithmetic is a parameter ([DoubleOps]): the results that need
      no algebraic law hold for every arithmetic, in particular for IEEE
      binary64 ([binary64], built on the kernel's primitive floats), which is
      what the C++ code runs on.  Exact arithmetic is the instance [exactR].
    - [UInt] sizes and indices are [nat]: the size of a vector and an index
      below it do not come near 2^64.  The arithmetic on the argument
      [maxDegree] of [deformationMatrix], and on the degrees and orders that
      run up to it, is that of [UInt] and wraps around at 2^64 ([UInt_add],
      [UInt_sub], [UInt_mul]).
    - A C++ exception is a value of [Exception]; a function that can throw
      returns [result T].  [GROOPS_RETHROW] only adds the name of the
      function to the message, so the embedding propagates the exception
      as it is.
    - Classes and functions of the repository that this file does not embed
      (Time, Matrix, Polynomial, SphericalHarmonics, the IERS and ERFA
      routines, the config reader) are parameters, gathered in records. *)

From Stdlib Require Import ZArith List String Lia Reals.
From Stdlib Require Import Floats.PrimFloat.
From Stdlib Require Numbers.Cyclic.Int63.Uint63.
From stdpp Require Import base list.

Set Default Proof Using "Type".
Set Warnings "-inexact-float".
Local Open Scope nat_scope.

(** ** Double arithmetic *)

Class DoubleOps := {
  Double : Type;
  d_zero : Double;                       (* the literal 0 *)
  d_add : Double -> Double -> Double;
  d_sub : Double -> Double -> Double;
  d_mul : Double -> Double -> Double;
  d_div : Double -> Double -> Double;
  d_opp : Double -> Double;              (* unary minus *)
  d_sqrt : Double -> Double;             (* std::sqrt *)
  d_of_Z : Z -> Double;                  (* conversion of an integer value *)
  lit_1e_6 : Double;                     (* the literal 1e-6 *)
  lit_2400000_5 : Double;                (* the literal 2400000.5 *)
  DEG2RAD : Double                       (* base/constants.h *)
}.

Declare Scope dbl_scope.
Delimit Scope dbl_scope with D.
Infix "+" := d_add : dbl_scope.
Infix "-" := d_sub : dbl_scope.
Infix "*" := d_mul : dbl_scope.
Infix "/" := d_div : dbl_scope.

Definition d_of_nat `{DoubleOps} (n : nat) : Double := d_of_Z (Z.of_nat n).

(** IEEE 754 binary64, round to nearest even: the arithmetic of the C++
    type [double]. *)
Definition float_of_Z (z : Z) : float :=
  if (z <? 0)%Z then PrimFloat.opp (PrimFloat.of_uint63 (Uint63.of_Z (- z)))
  else PrimFloat.of_uint63 (Uint63.of_Z z).

#[export] Instance binary64 : DoubleOps := {|
  Double := float;
  d_zero := PrimFloat.zero;
  d_add := PrimFloat.add;
  d_sub := PrimFloat.sub;
  d_mul := PrimFloat.mul;
  d_div := PrimFloat.div;
  d_opp := PrimFloat.opp;
  d_sqrt := PrimFloat.sqrt;
  d_of_Z := float_of_Z;
  lit_1e_6 := 1e-6%float;
  lit_2400000_5 := 2400000.5%float;
  DEG2RAD := 0.017453292519943295%float
|}.

(** Exact arithmetic over the real numbers. *)
Definition exactR : DoubleOps := {|
  Double := R;
  d_zero := 0%R;
  d_add := Rplus;
  d_sub := Rminus;
  d_mul := Rmult;
  d_div := Rdiv;
  d_opp := Ropp;
  d_sqrt := R_sqrt.sqrt;
  d_of_Z := IZR;
  lit_1e_6 := (1 / 1000000)%R;
  lit_2400000_5 := (4800001 / 2)%R;
  DEG2RAD := (PI / 180)%R
|}.

(** Two laws of addition that exact arithmetic has; binary64 lacks the
    first, and has the second except at the negative zero. *)
Definition add_associative `{DoubleOps} : Prop :=
  forall a b c : Double, ((a + b) + c)%D = (a + (b + c))%D.
Definition add_zero_right `{DoubleOps} : Prop :=
  forall a : Double, (a + d_zero)%D = a.

(** ** Exceptions *)

Inductive Exception :=
| NoEOPsAvailable (dateTimeStr : string)  (* "No EOPs available: <time>" *)
| CompiledWithoutERFA                     (* "Compiled without ERFA library" *)
| StdOutOfRange                           (* std::vector::at out of range *)
| Collaborator (what : string).           (* thrown by code outside this model *)

Definition result (T : Type) : Type := Exception + T.
Definition Ok {T} (x : T) : result T := inr x.
Definition Throw {T} (e : Exception) : result T := inl e.

Definition rbind {A B} (m : result A) (f : A -> result B) : result B :=
  match m with inl e => inl e | inr a => f a end.

Notation "'do' x <- m ; k" := (rbind m (fun x => k))
  (at level 10, x name, m at level 100, k at level 200).

(** [std::vector::at]. *)
Definition at_ {T} (v : list T) (i : nat) : result T :=
  match v !! i with Some x => Ok x | None => Throw StdOutOfRange end.

(** A loop [for(i=0; i<v.size(); i++) acc = body(acc, v.at(i))] whose body
    can throw. *)
Fixpoint for_each {S T} (body : S -> T -> result S) (acc : S) (v : list T)
  : result S :=
  match v with
  | [] => Ok acc
  | c :: v' => do acc' <- body acc c; for_each body acc' v'
  end.

(** ** [UInt] of base/portable.h

    [typedef std::size_t UInt;]: an unsigned integer of 64 bits.  A value
    is modelled by the natural number that it holds, and the arithmetic
    wraps around at 2^64, as that of [std::size_t] does. *)
Definition UInt_modulus : Z := (2 ^ 64)%Z.

Definition UInt_wrap (z : Z) : nat := Z.to_nat (z mod UInt_modulus).

Definition UInt_add (a b : nat) : nat := UInt_wrap (Z.of_nat a + Z.of_nat b).
Definition UInt_sub (a b : nat) : nat := UInt_wrap (Z.of_nat a - Z.of_nat b).
Definition UInt_mul (a b : nat) : nat := UInt_wrap (Z.of_nat a * Z.of_nat b).

(** [z] is a value of [UInt]. *)
Definition UInt_fits (z : Z) : Prop := (0 <= z < UInt_modulus)%Z.

(** ** Vectors and tensors of base/ *)

Section Geometry.
Context `{DoubleOps}.

Record Vector3d := mkVector3d { vx : Double; vy : Double; vz : Double }.

(** Modelled from the spec: base/vector3d.h is not embedded here; a default
    constructed 3-vector is the zero vector ("zero vector acceleration")
    and the sum of 3-vectors is the sum of their coordinates. *)
Definition Vector3d_default : Vector3d := mkVector3d d_zero d_zero d_zero.
Definition Vector3d_add (a b : Vector3d) : Vector3d :=
  mkVector3d (vx a + vx b)%D (vy a + vy b)%D (vz a + vz b)%D.
Definition Vector3d_sub (a b : Vector3d) : Vector3d :=
  mkVector3d (vx a - vx b)%D (vy a - vy b)%D (vz a - vz b)%D.
Definition Vector3d_scale (c : Double) (a : Vector3d) : Vector3d :=
  mkVector3d (c * vx a)%D (c * vy a)%D (c * vz a)%D.

(** Modelled from the spec: base/tensor3d.h is not embedded here; the gradient
    tensor is a "3×3 symmetric tensor", default constructed as zero and
    summed entry by entry. *)
Record Tensor3d := mkTensor3d {
  txx : Double; tyy : Double; tzz : Double;
  txy : Double; txz : Double; tyz : Double }.
Definition Tensor3d_default : Tensor3d :=
  mkTensor3d d_zero d_zero d_zero d_zero d_zero d_zero.
Definition Tensor3d_add (a b : Tensor3d) : Tensor3d :=
  mkTensor3d (txx a + txx b)%D (tyy a + tyy b)%D (tzz a + tzz b)%D
             (txy a + txy b)%D (txz a + txz b)%D (tyz a + tyz b)%D.
End Geometry.

(** ** Matrices and vectors of base/matrix.h

    Modelled from the spec: base/matrix.h is not embedded here; a "matrix A
    of shape (3K) × (maxDegree+1)²" is a dense table of [rows] x [columns]
    doubles, kept row by row, and a vector is a list of doubles.  The
    element access [A(i,j)] of the C++ class is unchecked: the model reads
    0 and writes nothing outside the matrix, and the results on
    [deformationMatrix] show that its assignments stay inside when the
    column count does not wrap around. *)

Section Matrices.
Context `{DoubleOps}.

Record Matrix := mkMatrix {
  rows : nat;
  columns : nat;
  cells : list (list Double) }.

(** [Matrix A(r, c)]: zero filled. *)
Definition Matrix_new (r c : nat) : Matrix :=
  mkMatrix r c (replicate r (replicate c d_zero)).

(** [A(i,j)] read. *)
Definition Matrix_get (A : Matrix) (i j : nat) : Double :=
  match cells A !! i with
  | Some row => match row !! j with Some v => v | None => d_zero end
  | None => d_zero
  end.

(** [A(i,j) = v]. *)
Definition Matrix_set (A : Matrix) (i j : nat) (v : Double) : Matrix :=
  mkMatrix (rows A) (columns A) (alter (fun row => <[j := v]> row) i (cells A)).

(** [A.size()]. *)
Definition Matrix_size (A : Matrix) : nat := rows A * columns A.

(** The storage agrees with the declared shape. *)
Definition Matrix_wf (A : Matrix) : Prop :=
  length (cells A) = rows A /\
  Forall (fun row => length row = columns A) (cells A).

(** A [Vector] is a list of doubles; [v(n)] is unchecked like [A(i,j)]. *)
Definition Vector : Type := list Double.
Definition Vector_get (v : Vector) (n : nat) : Double :=
  match v !! n with Some x => x | None => d_zero end.

End Matrices.

(** ** The tide components and their aggregator (tides.cpp) *)

Section Tides.
Context `{DoubleOps}.
(** Types of base/ and of the collaborating classes. *)
Context {Time Rotary3d EarthRotationPtr EphemeridesPtr SphericalHarmonics : Type}.

(** The methods of [SphericalHarmonics] (base/sphericalHarmonics.h) that
    tides.cpp calls, and the default arguments that classes/tides/tides.h
    gives to [TidesBase::sphericalHarmonics]. *)
Class SphericalHarmonicsOps := {
  SH_default : SphericalHarmonics;                       (* SphericalHarmonics() *)
  SH_add : SphericalHarmonics -> SphericalHarmonics -> SphericalHarmonics;  (* += *)
  SH_GM : SphericalHarmonics -> Double;
  SH_R : SphericalHarmonics -> Double;
  SH_maxDegree : SphericalHarmonics -> nat;
  SH_x : SphericalHarmonics -> Vector;
  SH_potential : SphericalHarmonics -> Vector3d -> Double;
  SH_radialGradient : SphericalHarmonics -> Vector3d -> Double;
  SH_gravity : SphericalHarmonics -> Vector3d -> Vector3d;
  SH_gravityGradient : SphericalHarmonics -> Vector3d -> Tensor3d;
  SH_deformation :
    SphericalHarmonics -> Vector3d -> Double -> Vector -> Vector -> Vector3d;
  (** [SphericalHarmonics::CnmSnm(point, degree, Cnm, Snm)] *)
  CnmSnm : Vector3d -> nat -> Matrix * Matrix;
  (** [A * x] (matrix times vector, through BLAS) *)
  Matrix_times_Vector : Matrix -> Vector -> result Vector;
  (** [normalize] and [inner] of base/vector3d.h *)
  normalize : Vector3d -> Vector3d;
  inner : Vector3d -> Vector3d -> Double;
  INFINITYDEGREE : nat;
  DEFAULT_GM : Double;
  DEFAULT_R : Double
}.
Context `{SphericalHarmonicsOps}.

(** The virtual interface of a tide component ([TidesBase]). *)
Record TidesBase := mkTidesBase {
  potential :
    Time -> Vector3d -> Rotary3d -> EarthRotationPtr -> EphemeridesPtr ->
    result Double;
  radialGradient :
    Time -> Vector3d -> Rotary3d -> EarthRotationPtr -> EphemeridesPtr ->
    result Double;
  gravity :
    Time -> Vector3d -> Rotary3d -> EarthRotationPtr -> EphemeridesPtr ->
    result Vector3d;
  gravityGradient :
    Time -> Vector3d -> Rotary3d -> EarthRotationPtr -> EphemeridesPtr ->
    result Tensor3d;
  deformation :
    Time -> Vector3d -> Rotary3d -> EarthRotationPtr -> EphemeridesPtr ->
    Double -> Vector -> Vector -> result Vector3d;
  deformation_batch :
    list Time -> list Vector3d -> list Rotary3d -> EarthRotationPtr ->
    EphemeridesPtr -> list Double -> Vector -> Vector ->
    list (list Vector3d) -> result (list (list Vector3d));
  sphericalHarmonics :
    Time -> Rotary3d -> EarthRotationPtr -> EphemeridesPtr ->
    nat -> nat -> Double -> Double -> result SphericalHarmonics
}.

(** *** [class Tides]: the list [tides] of components *)

Section Aggregator.
Variable (timeGPS : Time) (point : Vector3d) (rotEarth : Rotary3d).
Variable (rotation : EarthRotationPtr) (ephemerides : EphemeridesPtr).

(** [Double V = 0; for(i...) V += tides.at(i)->potential(...); return V;] *)
Definition Tides_potential (tides : list TidesBase) : result Double :=
  for_each (fun V c =>
              do v <- potential c timeGPS point rotEarth rotation ephemerides;
              Ok (V + v)%D)
           d_zero tides.

Definition Tides_radialGradient (tides : list TidesBase) : result Double :=
  for_each (fun dVdr c =>
              do v <- radialGradient c timeGPS point rotEarth rotation ephemerides;
              Ok (dVdr + v)%D)
           d_zero tides.

(** [Vector3d g; for(i...) g += tides.at(i)->gravity(...); return g;] *)
Definition Tides_acceleration (tides : list TidesBase) : result Vector3d :=
  for_each (fun g c =>
              do v <- gravity c timeGPS point rotEarth rotation ephemerides;
              Ok (Vector3d_add g v))
           Vector3d_default tides.

Definition Tides_gradient (tides : list TidesBase) : result Tensor3d :=
  for_each (fun T c =>
              do v <- gravityGradient c timeGPS point rotEarth rotation ephemerides;
              Ok (Tensor3d_add T v))
           Tensor3d_default tides.

(** Single point, single time. *)
Definition Tides_deformation (tides : list TidesBase)
    (gravity_ : Double) (hn ln : Vector) : result Vector3d :=
  for_each (fun pos c =>
              do v <- deformation c timeGPS point rotEarth rotation ephemerides
                        gravity_ hn ln;
              Ok (Vector3d_add pos v))
           Vector3d_default tides.

(** [if(tides.empty()) return SphericalHarmonics(); harmonics = tides.at(0)->...;
    for(i=1...) harmonics += tides.at(i)->...;] *)
Definition Tides_sphericalHarmonics (tides : list TidesBase)
    (maxDegree minDegree : nat) (GM R : Double) : result SphericalHarmonics :=
  match tides with
  | [] => Ok SH_default
  | c0 :: rest =>
      do harmonics <- sphericalHarmonics c0 timeGPS rotEarth rotation ephemerides
                        maxDegree minDegree GM R;
      for_each (fun harmonics c =>
                  do h <- sphericalHarmonics c timeGPS rotEarth rotation ephemerides
                            maxDegree minDegree GM R;
                  Ok (SH_add harmonics h))
               harmonics rest
  end.

End Aggregator.

(** Many points, many times: every component works on the same array. *)
Definition Tides_deformation_batch (tides : list TidesBase)
    (timeGPS : list Time) (point : list Vector3d) (rotEarth : list Rotary3d)
    (rotation : EarthRotationPtr) (ephemerides : EphemeridesPtr)
    (gravity_ : list Double) (hn ln : Vector)
    (disp : list (list Vector3d)) : result (list (list Vector3d)) :=
  for_each (fun disp c =>
              deformation_batch c timeGPS point rotEarth rotation ephemerides
                gravity_ hn ln disp)
           disp tides.

(** *** [class TidesBase]: the default methods

    A component may implement [sphericalHarmonics] only; the other methods
    then evaluate the harmonics.  [harmonics] below is that virtual method
    called with the default arguments of its last four parameters. *)

Section TidesBaseDefaults.
Variable sphericalHarmonics_ :
  Time -> Rotary3d -> EarthRotationPtr -> EphemeridesPtr ->
  nat -> nat -> Double -> Double -> result SphericalHarmonics.

Definition harmonics (time : Time) (rotEarth : Rotary3d)
    (rotation : EarthRotationPtr) (ephemerides : EphemeridesPtr)
  : result SphericalHarmonics :=
  sphericalHarmonics_ time rotEarth rotation ephemerides
    INFINITYDEGREE 0 DEFAULT_GM DEFAULT_R.

Definition TidesBase_potential (time : Time) (point : Vector3d)
    (rotEarth : Rotary3d) (rotation : EarthRotationPtr)
    (ephemerides : EphemeridesPtr) : result Double :=
  do h <- harmonics time rotEarth rotation ephemerides;
  Ok (SH_potential h point).

Definition TidesBase_radialGradient (time : Time) (point : Vector3d)
    (rotEarth : Rotary3d) (rotation : EarthRotationPtr)
    (ephemerides : EphemeridesPtr) : result Double :=
  do h <- harmonics time rotEarth rotation ephemerides;
  Ok (SH_radialGradient h point).

Definition TidesBase_gravity (time : Time) (point : Vector3d)
    (rotEarth : Rotary3d) (rotation : EarthRotationPtr)
    (ephemerides : EphemeridesPtr) : result Vector3d :=
  do h <- harmonics time rotEarth rotation ephemerides;
  Ok (SH_gravity h point).

Definition TidesBase_gravityGradient (time : Time) (point : Vector3d)
    (rotEarth : Rotary3d) (rotation : EarthRotationPtr)
    (ephemerides : EphemeridesPtr) : result Tensor3d :=
  do h <- harmonics time rotEarth rotation ephemerides;
  Ok (SH_gravityGradient h point).

Definition TidesBase_deformation (time : Time) (point : Vector3d)
    (rotEarth : Rotary3d) (rotation : EarthRotationPtr)
    (ephemerides : EphemeridesPtr) (gravity_ : Double) (hn ln : Vector)
  : result Vector3d :=
  do h <- harmonics time rotEarth rotation ephemerides;
  Ok (SH_deformation h point gravity_ hn ln).

End TidesBaseDefaults.

(** *** [TidesBase::deformationMatrix]

    The degrees, orders and column numbers are [UInt]s and are computed
    with [UInt_add], [UInt_sub] and [UInt_mul] where the code computes
    them with [+], [-] and [*].  The row numbers [3*k+0], [3*k+1], [3*k+2]
    and the row count [3*point.size()] are left unwrapped: a
    [std::vector<Vector3d>] has fewer than 2^64/24 elements.  A loop
    [for(UInt n=a; n<=maxDegree; n++)] is the list of its passes
    [a, ..., maxDegree]. *)

(** The three assignments [A(3*k+0, col) = disp.x(); A(3*k+1, col) = disp.y();
    A(3*k+2, col) = disp.z();]. *)
Definition store_disp (A : Matrix) (k col : nat) (disp : Vector3d) : Matrix :=
  Matrix_set
    (Matrix_set
       (Matrix_set A (3 * k + 0) col (vx disp))
       (3 * k + 1) col (vy disp))
    (3 * k + 2) col (vz disp).

(** [(hn(n)/gravity.at(k)*Vn) * up + (ln(n)/gravity.at(k)) * (gradVn-inner(gradVn,up)*up)] *)
Definition displacement (hn ln : Vector) (n : nat) (g : Double)
    (Vn : Double) (gradVn up : Vector3d) : Vector3d :=
  Vector3d_add
    (Vector3d_scale ((Vector_get hn n / g) * Vn)%D up)
    (Vector3d_scale (Vector_get ln n / g)%D
       (Vector3d_sub gradVn (Vector3d_scale (inner gradVn up) up))).

Section DeformationMatrix.
Variable (gravity_ : list Double) (hn ln : Vector) (GM R : Double).
Variable (k : nat) (up : Vector3d) (Cnm Snm : Matrix).

Let one : Double := d_of_Z 1.
Let two : Double := d_of_Z 2.
Let three : Double := d_of_Z 3.
Let minus_two : Double := d_of_Z (-2).

(** [GM/(2*R) * sqrt((2*n+1.)/(2*n+3.))] *)
Definition gradient_factor (n : nat) : Double :=
  ((GM / (two * R)) *
   d_sqrt ((d_of_nat (UInt_mul 2 n) + one)
           / (d_of_nat (UInt_mul 2 n) + three)))%D.

(** The displacement of the zonal coefficient of degree [n]. *)
Definition disp_order0 (g : Double) (n : nat) : Vector3d :=
  let nD := d_of_nat n in
  let wm0 := d_sqrt ((nD + one) * (nD + one))%D in
  let wp1 := (d_sqrt ((nD + one) * (nD + two)) / d_sqrt two)%D in
  let Cm0 := (wm0 * Matrix_get Cnm (UInt_add n 1) 0)%D in
  let Cp1 := (wp1 * Matrix_get Cnm (UInt_add n 1) 1)%D in
  let Sp1 := (wp1 * Matrix_get Snm (UInt_add n 1) 1)%D in
  let Vn := ((GM / R) * Matrix_get Cnm n 0)%D in
  let gradVn :=
    Vector3d_scale (gradient_factor n)
      (mkVector3d (minus_two * Cp1)%D (minus_two * Sp1)%D (minus_two * Cm0)%D) in
  displacement hn ln n g Vn gradVn up.

(** The weighted neighbours [Cm1, Sm1, Cm0, Sm0, Cp1, Sp1] of degree [n],
    order [m >= 1]. *)
Definition neighbours (n m : nat)
  : Double * Double * Double * Double * Double * Double :=
  let nm := d_of_nat (UInt_sub n m) in
  let npm := d_of_nat (UInt_add n m) in
  let wm1 := (d_sqrt ((nm + one) * (nm + two)) *
              (if Nat.eqb m 1 then d_sqrt two else one))%D in
  let wm0 := d_sqrt ((nm + one) * (npm + one))%D in
  let wp1 := d_sqrt ((npm + one) * (npm + two))%D in
  ((wm1 * Matrix_get Cnm (UInt_add n 1) (UInt_sub m 1))%D,
   (wm1 * Matrix_get Snm (UInt_add n 1) (UInt_sub m 1))%D,
   (wm0 * Matrix_get Cnm (UInt_add n 1) m)%D,
   (wm0 * Matrix_get Snm (UInt_add n 1) m)%D,
   (wp1 * Matrix_get Cnm (UInt_add n 1) (UInt_add m 1))%D,
   (wp1 * Matrix_get Snm (UInt_add n 1) (UInt_add m 1))%D).

(** The displacement of the cosine coefficient of degree [n], order [m]. *)
Definition disp_cos (g : Double) (n m : nat) : Vector3d :=
  let '(Cm1, Sm1, Cm0, Sm0, Cp1, Sp1) := neighbours n m in
  let Vn := ((GM / R) * Matrix_get Cnm n m)%D in
  let gradVn :=
    Vector3d_scale (gradient_factor n)
      (mkVector3d (Cm1 - Cp1)%D (d_opp Sm1 - Sp1)%D (minus_two * Cm0)%D) in
  displacement hn ln n g Vn gradVn up.

(** The displacement of the sine coefficient of degree [n], order [m]. *)
Definition disp_sin (g : Double) (n m : nat) : Vector3d :=
  let '(Cm1, Sm1, Cm0, Sm0, Cp1, Sp1) := neighbours n m in
  let Vn := ((GM / R) * Matrix_get Snm n m)%D in
  let gradVn :=
    Vector3d_scale (gradient_factor n)
      (mkVector3d (Sm1 - Sp1)%D (Cm1 + Cp1)%D (minus_two * Sm0)%D) in
  displacement hn ln n g Vn gradVn up.

(** Body of [for(UInt n=0; n<=maxDegree; n++)] (order 0). *)
Definition order0_body (A : Matrix) (n : nat) : result Matrix :=
  do g <- at_ gravity_ k;
  Ok (store_disp A k (UInt_mul n n) (disp_order0 g n)).

(** Body of [for(UInt n=m; n<=maxDegree; n++)] (order [m >= 1]). *)
Definition orders_body (m : nat) (A : Matrix) (n : nat) : result Matrix :=
  do g <- at_ gravity_ k;
  Ok (store_disp
        (store_disp A k (UInt_sub (UInt_add (UInt_mul n n) (UInt_mul 2 m)) 1)
                    (disp_cos g n m))
        k (UInt_add (UInt_mul n n) (UInt_mul 2 m)) (disp_sin g n m)).

End DeformationMatrix.

(** Body of [for(UInt k=0; k<point.size(); k++)]. *)
Definition point_body (point : list Vector3d) (gravity_ : list Double)
    (hn ln : Vector) (GM R : Double) (maxDegree : nat)
    (A : Matrix) (k : nat) : result Matrix :=
  do p <- at_ point k;
  let up := normalize p in
  let '(Cnm, Snm) :=
    CnmSnm (Vector3d_scale (d_of_Z 1 / R)%D p) (UInt_add maxDegree 1) in
  do A <- for_each (order0_body gravity_ hn ln GM R k up Cnm Snm)
                   A (seq 0 (maxDegree + 1));
  for_each (fun A m =>
              for_each (orders_body gravity_ hn ln GM R k up Cnm Snm m)
                       A (seq m (maxDegree + 1 - m)))
           A (seq 1 maxDegree).

Definition TidesBase_deformationMatrix (point : list Vector3d)
    (gravity_ : list Double) (hn ln : Vector) (GM R : Double)
    (maxDegree : nat) : result Matrix :=
  let A := Matrix_new (3 * length point)
                      (UInt_mul (UInt_add maxDegree 1) (UInt_add maxDegree 1)) in
  for_each (point_body point gravity_ hn ln GM R maxDegree)
           A (seq 0 (length point)).

(** *** [TidesBase::deformation] for many points and many times *)

(** [disp.at(k).at(i).x() += Ax(3*k+0);] and the same for [y] and [z]. *)
Definition add_to_disp (Ax : Vector) (i : nat)
    (disp : list (list Vector3d)) (k : nat) : result (list (list Vector3d)) :=
  do row <- at_ disp k;
  do v <- at_ row i;
  Ok (<[k := <[i := mkVector3d (vx v + Vector_get Ax (3 * k + 0))%D
                               (vy v + Vector_get Ax (3 * k + 1))%D
                               (vz v + Vector_get Ax (3 * k + 2))%D]> row]> disp).

Section TidesBaseBatch.
Variable sphericalHarmonics_ :
  Time -> Rotary3d -> EarthRotationPtr -> EphemeridesPtr ->
  nat -> nat -> Double -> Double -> result SphericalHarmonics.
Variable (time : list Time) (point : list Vector3d) (rotEarth : list Rotary3d).
Variable (rotation : EarthRotationPtr) (ephemerides : EphemeridesPtr).
Variable (gravity_ : list Double) (hn ln : Vector).

(** [Vector Ax = A * sphericalHarmonics(time.at(i), rotEarth.at(i), ...).x();] *)
Definition epoch_Ax (A : Matrix) (i : nat) : result Vector :=
  do t <- at_ time i;
  do r <- at_ rotEarth i;
  do h <- harmonics sphericalHarmonics_ t r rotation ephemerides;
  Matrix_times_Vector A (SH_x h).

(** Body of [for(UInt i=0; i<time.size(); i++)]. *)
Definition epoch_body (A : Matrix)
    (disp : list (list Vector3d)) (i : nat) : result (list (list Vector3d)) :=
  do Ax <- epoch_Ax A i;
  for_each (add_to_disp Ax i) disp (seq 0 (length point)).

(** The matrix of the batch: built once, from the harmonics of the first
    epoch. *)
Definition batch_matrix : result Matrix :=
  do t0 <- at_ time 0;
  do r0 <- at_ rotEarth 0;
  do harm <- harmonics sphericalHarmonics_ t0 r0 rotation ephemerides;
  TidesBase_deformationMatrix point gravity_ hn ln
    (SH_GM harm) (SH_R harm) (SH_maxDegree harm).

Definition TidesBase_deformation_batch (disp : list (list Vector3d))
  : result (list (list Vector3d)) :=
  if (length time =? 0) || (length point =? 0) then Ok disp
  else
    do A <- batch_matrix;
    for_each (epoch_body A) disp (seq 0 (length time)).

End TidesBaseBatch.

(** A component that implements [sphericalHarmonics] only and inherits
    every other method from [TidesBase]. *)
Definition TidesBase_inherit
    (sphericalHarmonics_ :
       Time -> Rotary3d -> EarthRotationPtr -> EphemeridesPtr ->
       nat -> nat -> Double -> Double -> result SphericalHarmonics)
  : TidesBase :=
  mkTidesBase
    (TidesBase_potential sphericalHarmonics_)
    (TidesBase_radialGradient sphericalHarmonics_)
    (TidesBase_gravity sphericalHarmonics_)
    (TidesBase_gravityGradient sphericalHarmonics_)
    (TidesBase_deformation sphericalHarmonics_)
    (TidesBase_deformation_batch sphericalHarmonics_)
    sphericalHarmonics_.

End Tides.

(** ** Earth rotation after the IERS 2010 conventions
       (earthRotationIers2010.cpp) *)

Section EarthRotationIers2010.
Context `{DoubleOps}.
Context {Time Polynomial : Type}.

(** What the file takes from base/time.h, base/polynomial.h,
    files/fileEarthOrientationParameter.h, external/iers/iers.h and ERFA. *)
Class IersOps := {
  mjd2time : Double -> Time;
  timeUTC2GPS : Time -> Time;
  timeGPS2UTC : Time -> Time;
  timeGPS2TT : Time -> Time;
  Time_minus : Time -> Time -> Time;             (* operator- *)
  Time_seconds : Time -> Double;                 (* seconds() *)
  Time_lt : Time -> Time -> bool;                (* operator< *)
  Time_gt : Time -> Time -> bool;                (* operator> *)
  Time_mjd : Time -> Double;
  Time_mjdInt : Time -> Z;
  Time_mjdMod : Time -> Double;
  Time_dateTimeStr : Time -> string;
  (** the table of the file: a row is (mjd, xp, yp, UT1-UTC, LOD, dX, dY);
      [None] when reading throws *)
  readFileEarthOrientationParameter : string -> option Matrix;
  Polynomial_default : Polynomial;
  Polynomial_init : Polynomial -> nat -> Polynomial;
  (** [None] when interpolation throws *)
  Polynomial_interpolate :
    Polynomial -> list Time -> list Time -> Matrix -> nat -> option Matrix;
  ortho_eop : Double -> Double * Double * Double;
  pmsdnut2 : Double -> Double * Double;
  utlibr : Double -> Double * Double;
  eraSp00 : Double -> Double -> Double;
  eraXys00b : Double -> Double -> Double * Double * Double;
  eraXy06 : Double -> Double -> Double * Double;
  eraS06 : Double -> Double -> Double -> Double -> Double
}.
Context `{IersOps}.

(** The build: [true] when compiled with [-DNOLIB_ERFA]. *)
Variable NOLIB_ERFA : bool.

(** Modelled from the spec: what the constructor reads from the
    configuration ("EOP file path (optional ...), a boolean flag selecting
    the truncated vs. full precession-nutation series"), and whether the
    run only creates the schema ([isCreateSchema(config)]). *)
Record Config := mkConfig {
  inputfileEOP : string;          (* optional: empty when not given *)
  truncatedNutation : bool;
  isCreateSchema : bool }.

Record EarthRotationIers2010 := mkEarthRotationIers2010 {
  times : list Time;
  EOP : Matrix;
  useTruncated : bool;
  polynomial : Polynomial }.

(** [A.column(start, len)]: the slice of [len] columns from [start]. *)
Definition Matrix_column (A : Matrix) (start len : nat) : Matrix :=
  mkMatrix (rows A) len (map (fun row => take len (drop start row)) (cells A)).

(** [A.column(j) *= c]. *)
Definition Matrix_scale_column (A : Matrix) (j : nat) (c : Double) : Matrix :=
  mkMatrix (rows A) (columns A)
           (map (fun row => alter (fun v => (v * c)%D) j row) (cells A)).

(** [EOP(i,2) -= (timeUTC2GPS(times.at(i))-times.at(i)).seconds();] *)
Definition remove_leap_seconds (times_ : list Time) (E : Matrix) (i : nat)
  : result Matrix :=
  do t <- at_ times_ i;
  do t' <- at_ times_ i;
  Ok (Matrix_set E i 2
        (Matrix_get E i 2 - Time_seconds (Time_minus (timeUTC2GPS t) t'))%D).

(** [DEG2RAD/3600] *)
Definition arcsec2rad : Double := (DEG2RAD / d_of_Z 3600)%D.

Definition EarthRotationIers2010_new (config : Config)
  : result EarthRotationIers2010 :=
  let eopName := inputfileEOP config in
  let useTruncated_ := truncatedNutation config in
  let empty :=
    mkEarthRotationIers2010 [] (Matrix_new 0 0) useTruncated_ Polynomial_default in
  if isCreateSchema config then Ok empty
  else if NOLIB_ERFA then Throw CompiledWithoutERFA
  else if String.eqb eopName "" then Ok empty
  else
    match readFileEarthOrientationParameter eopName with
    | None => Throw (Collaborator "readFileEarthOrientationParameter")
    | Some raw =>
        let times_ := map (fun i => mjd2time (Matrix_get raw i 0)) (seq 0 (rows raw)) in
        let E := Matrix_column raw 1 6 in
        do E <- for_each (remove_leap_seconds times_) E (seq 0 (rows E));
        let E := Matrix_scale_column E 0 arcsec2rad in
        let E := Matrix_scale_column E 1 arcsec2rad in
        let E := Matrix_scale_column E 4 arcsec2rad in
        let E := Matrix_scale_column E 5 arcsec2rad in
        Ok (mkEarthRotationIers2010 times_ E useTruncated_
              (Polynomial_init Polynomial_default 3))
    end.

(** The eight outputs of [earthOrientationParameter]. *)
Record EOPValues := mkEOPValues {
  xp : Double; yp : Double; sp : Double; deltaUT : Double; LOD : Double;
  X : Double; Y : Double; S : Double }.

(** The values interpolated from the file: [(xp, yp, deltaUT, LOD, dX, dY)]. *)
Definition interpolated (self : EarthRotationIers2010) (timeGPS : Time)
  : result (Double * Double * Double * Double * Double * Double) :=
  if Matrix_size (EOP self) =? 0
  then Ok (d_zero, d_zero, d_zero, d_zero, d_zero, d_zero)
  else
    let timeUTC := timeGPS2UTC timeGPS in
    do first <- at_ (times self) 0;
    let back := match last (times self) with Some t => t | None => first end in
    if Time_lt timeUTC first || Time_gt timeUTC back
    then Throw (NoEOPsAvailable (Time_dateTimeStr timeGPS))
    else
      match Polynomial_interpolate (polynomial self) [timeUTC] (times self)
                                   (EOP self) 1 with
      | None => Throw (Collaborator "Polynomial::interpolate")
      | Some eop =>
          Ok (Matrix_get eop 0 0,
              Matrix_get eop 0 1,
              (Matrix_get eop 0 2 + Time_seconds (Time_minus timeGPS timeUTC))%D,
              Matrix_get eop 0 3,
              Matrix_get eop 0 4,
              Matrix_get eop 0 5)
      end.

(** [x*1e-6*DEG2RAD/3600] *)
Definition micro_arcsec2rad (x : Double) : Double :=
  (((x * lit_1e_6) * DEG2RAD) / d_of_Z 3600)%D.

(** [2400000.5+timeTT.mjdInt()] *)
Definition julian_date1 (timeTT : Time) : Double :=
  (lit_2400000_5 + d_of_Z (Time_mjdInt timeTT))%D.

(** Precession and nutation [(X, Y, S)]: the truncated series (IAU2000B)
    or the full one. *)
Definition precession_nutation (truncated : bool) (date1 date2 : Double)
  : Double * Double * Double :=
  if truncated then eraXys00b date1 date2
  else
    let '(X0, Y0) := eraXy06 date1 date2 in
    (X0, Y0, eraS06 date1 date2 X0 Y0).

(** The part of [earthOrientationParameter] after the interpolation: the
    short-period models and precession and nutation, added to the values
    [(xp, yp, deltaUT, LOD, dX, dY)] that come from the file. *)
Definition models (self : EarthRotationIers2010) (timeGPS : Time)
    (file : Double * Double * Double * Double * Double * Double) : EOPValues :=
  let '(xp0, yp0, deltaUT0, LOD0, dX, dY) := file in
  (* diurnal and semidiurnal variations in EOP (x,y,UT1) from ocean tides *)
  let mjdUTC := Time_mjd (timeGPS2UTC timeGPS) in
  let '(dx, dy, du) := ortho_eop mjdUTC in
  let xp1 := (xp0 + micro_arcsec2rad dx)%D in
  let yp1 := (yp0 + micro_arcsec2rad dy)%D in
  let deltaUT1 := (deltaUT0 + du * lit_1e_6)%D in
  let '(pm0, pm1) := pmsdnut2 mjdUTC in
  let xp2 := (xp1 + micro_arcsec2rad pm0)%D in
  let yp2 := (yp1 + micro_arcsec2rad pm1)%D in
  let '(dut1, dlod) := utlibr mjdUTC in
  let deltaUT2 := (deltaUT1 + dut1 * lit_1e_6)%D in
  let LOD1 := (LOD0 + dlod * lit_1e_6)%D in
  let timeTT := timeGPS2TT timeGPS in
  let sp_ := eraSp00 (julian_date1 timeTT) (Time_mjdMod timeTT) in
  let '(X0, Y0, S0) :=
    precession_nutation (useTruncated self)
      (julian_date1 timeTT) (Time_mjdMod timeTT) in
  mkEOPValues xp2 yp2 sp_ deltaUT2 LOD1 (X0 + dX)%D (Y0 + dY)%D S0.

Definition earthOrientationParameter (self : EarthRotationIers2010)
    (timeGPS : Time) : result EOPValues :=
  if NOLIB_ERFA then Throw CompiledWithoutERFA
  else
    do file <- interpolated self timeGPS;
    Ok (models self timeGPS file).

(** The row that the constructor stores for a row
    [(mjd, xp, yp, UT1-UTC, LOD, dX, dY)] of the file, in two steps: the
    six values with UT1-UTC turned into UT1-GPS, and then the four angles
    turned from arc seconds into radians. *)
Definition UT1_minus_GPS_row (row : list Double) : list Double :=
  let t := mjd2time (match row !! 0 with Some v => v | None => d_zero end) in
  let six := take 6 (drop 1 row) in
  <[2 := ((match six !! 2 with Some v => v | None => d_zero end)
          - Time_seconds (Time_minus (timeUTC2GPS t) t))%D]> six.

Definition radians_row (row : list Double) : list Double :=
  alter (fun v => (v * arcsec2rad)%D) 5
    (alter (fun v => (v * arcsec2rad)%D) 4
       (alter (fun v => (v * arcsec2rad)%D) 1
          (alter (fun v => (v * arcsec2rad)%D) 0 row))).

Definition stored_row (row : list Double) : list Double :=
  radians_row (UT1_minus_GPS_row row).

End EarthRotationIers2010.

(** ** Auxiliary notions and concrete collaborators, for evaluation *)

(** The sum of two results: throws what the first throws, else what the
    second throws. *)
Definition sum_results {T} (add : T -> T -> T) (a b : result T) : result T :=
  do x <- a; do y <- b; Ok (add x y).

(** The accumulation [acc += f(c)] over the components [cs], from [acc]. *)
Definition accumulate {T C} (add : T -> T -> T) (f : C -> result T)
  : T -> list C -> result T :=
  for_each (fun acc c => do v <- f c; Ok (add acc v)).

(** A component whose potential, radial gradient and every coordinate of
    its vectors and tensors is the constant [v]. *)
Definition constant_tide `{DoubleOps} (v : Double)
  : @TidesBase _ unit unit unit unit unit :=
  mkTidesBase
    (fun _ _ _ _ _ => Ok v)
    (fun _ _ _ _ _ => Ok v)
    (fun _ _ _ _ _ => Ok (mkVector3d v v v))
    (fun _ _ _ _ _ => Ok (mkTensor3d v v v v v v))
    (fun _ _ _ _ _ _ _ _ => Ok (mkVector3d v v v))
    (fun _ _ _ _ _ _ _ _ disp => Ok disp)
    (fun _ _ _ _ _ _ _ _ => Ok tt).

Definition origin `{DoubleOps} : Vector3d := mkVector3d d_zero d_zero d_zero.

(** *** A world with one leap second

    Collaborators over binary64 in which the code can be run: an instant
    is its modified Julian date as one double, UTC is 17 s behind GPS
    before MJD 57754 (2017-01-01) and 18 s from then on, the interpolation
    is the polynomial through all the nodes it is given, and the IERS and
    ERFA models are constants. *)

Definition day_seconds : float := 86400%float.
Definition leap_mjd : float := 57754%float.

Definition leap_timeUTC2GPS (t : float) : float :=
  (t + (if PrimFloat.ltb t leap_mjd then 17 else 18) / day_seconds)%float.

Definition leap_timeGPS2UTC (t : float) : float :=
  (t - (if PrimFloat.ltb t (leap_mjd + 18 / day_seconds) then 17 else 18)
       / day_seconds)%float.

(** The file: four daily rows around the leap second; UT1-UTC steps from
    -0.4 s to +0.6 s with UTC. *)
Definition leap_file : @Matrix binary64 :=
  mkMatrix 4 7
    [[57752;  0.10; 0.30; -0.4; 0.001; 0.0001; 0.0002];
     [57753;  0.11; 0.31; -0.4; 0.001; 0.0001; 0.0002];
     [57754;  0.12; 0.32;  0.6; 0.001; 0.0001; 0.0002];
     [57755;  0.13; 0.33;  0.6; 0.001; 0.0001; 0.0002]]%float.

(** The Lagrange weight of node [a] at [t]. *)
Definition lagrange_weight (ts : list float) (a : nat) (t : float) : float :=
  let ta := nth a ts 0%float in
  fold_left (fun w '(b, tb) =>
               if Nat.eqb a b then w else (w * ((t - tb) / (ta - tb)))%float)
            (combine (seq 0 (length ts)) ts) 1%float.

Definition lagrange_interpolate (degree : nat) (timesNew ts : list float)
    (A : @Matrix binary64) (rowsPerEpoch : nat) : option (@Matrix binary64) :=
  if Nat.eqb (length ts) (degree + 1) then
    Some (mkMatrix (length timesNew) (columns A)
            (map (fun t =>
                    map (fun j =>
                           fold_left
                             (fun s a =>
                                (s + lagrange_weight ts a t * Matrix_get A a j)%float)
                             (seq 0 (length ts)) 0%float)
                        (seq 0 (columns A)))
                 timesNew))
  else None.

Definition leap_second_world : @IersOps binary64 float nat := {|
  mjd2time := fun mjd => mjd;
  timeUTC2GPS := leap_timeUTC2GPS;
  timeGPS2UTC := leap_timeGPS2UTC;
  timeGPS2TT := fun t => (t + 51.184 / day_seconds)%float;
  Time_minus := PrimFloat.sub;
  Time_seconds := fun t => (t * day_seconds)%float;
  Time_lt := PrimFloat.ltb;
  Time_gt := fun a b => PrimFloat.ltb b a;
  Time_mjd := fun t => t;
  Time_mjdInt := fun _ => 0%Z;
  Time_mjdMod := fun t => t;
  Time_dateTimeStr := fun _ => "mjd"%string;
  readFileEarthOrientationParameter := fun _ => Some leap_file;
  Polynomial_default := 0;
  Polynomial_init := fun _ degree => degree;
  Polynomial_interpolate := lagrange_interpolate;
  ortho_eop := fun _ => (10, 20, 30)%float;
  pmsdnut2 := fun _ => (1, 2)%float;
  utlibr := fun _ => (3, 4)%float;
  eraSp00 := fun _ _ => 0%float;
  eraXys00b := fun _ _ => (0.001, 0.002, 0.003)%float;
  eraXy06 := fun _ _ => (0.001, 0.002)%float;
  eraS06 := fun _ _ _ _ => 0.003%float
|}.

Definition leap_config : Config := mkConfig "EOP_14C04_IAU2000.txt" false false.

(** Query instants (GPS): 0.1 s before the leap second begins and 0.1 s
    after it has ended, 1.2 s apart; and one day before the first row. *)
Definition before_leap : float := (leap_mjd + 16.9 / day_seconds)%float.
Definition after_leap : float := (leap_mjd + 18.1 / day_seconds)%float.
Definition before_file : float := 57751%float.

(** The object that the constructor builds in this world. *)
Definition leap_object : @EarthRotationIers2010 binary64 float nat :=
  Eval vm_compute in
    match EarthRotationIers2010_new (H0 := leap_second_world) false leap_config with
    | inr self => self
    | inl _ => mkEarthRotationIers2010 [] (Matrix_new 0 0) false 0
    end.

(** The deltaUT that a query returns, and the value of the stored series
    that it interpolates. *)
Definition leap_deltaUT (timeGPS : float) : option float :=
  match earthOrientationParameter (H0 := leap_second_world) false leap_object timeGPS with
  | inr out => Some (deltaUT out)
  | inl _ => None
  end.

Definition leap_stored_deltaUT (timeGPS : float) : option float :=
  match lagrange_interpolate (polynomial leap_object) [leap_timeGPS2UTC timeGPS]
                             (times leap_object) (EOP leap_object) 1 with
  | Some eop => Some (Matrix_get eop 0 2)
  | None => None
  end.

(** *** A world without a file, whose models depend on their arguments

    An instant is the pair of [mjdInt()] and [mjdMod()]; UTC is an eighth
    of a day and TT a quarter of a day away from GPS (so that every value
    below is exact in binary64); no file can be read; the IERS and ERFA
    models are simple functions of their arguments, different for the two
    series. *)

Definition series_world : @IersOps binary64 (Z * float) unit := {|
  mjd2time := fun mjd => (0%Z, mjd);
  timeUTC2GPS := fun t => (t.1, (t.2 + 0.125)%float);
  timeGPS2UTC := fun t => (t.1, (t.2 - 0.125)%float);
  timeGPS2TT := fun t => ((t.1 + 1)%Z, (t.2 + 0.25)%float);
  Time_minus := fun a b => ((a.1 - b.1)%Z, (a.2 - b.2)%float);
  Time_seconds := fun t => ((float_of_Z t.1 + t.2) * day_seconds)%float;
  Time_lt := fun a b => PrimFloat.ltb a.2 b.2;
  Time_gt := fun a b => PrimFloat.ltb b.2 a.2;
  Time_mjd := fun t => (float_of_Z t.1 + t.2)%float;
  Time_mjdInt := fun t => t.1;
  Time_mjdMod := fun t => t.2;
  Time_dateTimeStr := fun _ => "mjd"%string;
  readFileEarthOrientationParameter := fun _ => None;
  Polynomial_default := tt;
  Polynomial_init := fun _ _ => tt;
  Polynomial_interpolate := fun _ _ _ _ _ => None;
  ortho_eop := fun mjd => (mjd, mjd + 1, mjd + 2)%float;
  pmsdnut2 := fun mjd => (mjd + 3, mjd + 4)%float;
  utlibr := fun mjd => (mjd + 5, mjd + 6)%float;
  eraSp00 := fun d1 d2 => (d1 - d2)%float;
  eraXys00b := fun d1 d2 => (d1, d2, d1 + d2)%float;
  eraXy06 := fun d1 d2 => (d2 + 1, d1 + 1)%float;
  eraS06 := fun d1 d2 x y => ((d1 + d2) + (x + 2 * y))%float
|}.

(** A query instant (GPS): noon of MJD 57754. *)
Definition noon : Z * float := (57754%Z, 0.5%float).

(** *** The assignments of [deformationMatrix], as a list

    A [Assignment] is one group of three assignments
    [A(3*k+0..2, column) = disp]. *)

Section Assignments.
Context `{DoubleOps}.
Context {SphericalHarmonics : Type}.
Context `{!@SphericalHarmonicsOps _ SphericalHarmonics}.

Definition Assignment : Type := nat * nat * Vector3d.

Definition assignment_key (w : Assignment) : nat * nat := (w.1.1, w.1.2).

Definition assign_all (A : Matrix) (ws : list Assignment) : Matrix :=
  fold_left (fun A w => store_disp A w.1.1 w.1.2 w.2) ws A.

(** The columns that the loops assign for a point [p] with gravity [g],
    each with the displacement assigned, in the order of the loops and
    with the column numbers as the code computes them. *)
Definition coefficient_writes (hn ln : Vector) (GM R : Double) (maxDegree : nat)
    (p : Vector3d) (g : Double) : list (nat * Vector3d) :=
  let up := normalize p in
  let CS := CnmSnm (Vector3d_scale (d_of_Z 1 / R)%D p) (UInt_add maxDegree 1) in
  ((fun n => (UInt_mul n n, disp_order0 hn ln GM R up CS.1 CS.2 g n))
     <$> seq 0 (maxDegree + 1)) ++
  (seq 1 maxDegree ≫= fun m =>
   seq m (maxDegree + 1 - m) ≫= fun n =>
     [(UInt_sub (UInt_add (UInt_mul n n) (UInt_mul 2 m)) 1,
       disp_cos hn ln GM R up CS.1 CS.2 g n m);
      (UInt_add (UInt_mul n n) (UInt_mul 2 m),
       disp_sin hn ln GM R up CS.1 CS.2 g n m)]).

(** They as the assignments for the point [k]. *)
Definition point_writes (hn ln : Vector) (GM R : Double) (maxDegree : nat)
    (k : nat) (p : Vector3d) (g : Double) : list Assignment :=
  (fun w => (k, w.1, w.2)) <$> coefficient_writes hn ln GM R maxDegree p g.

(** The assignments of the whole matrix, as the code makes them. *)
Definition matrix_writes (point : list Vector3d) (gravity_ : list Double)
    (hn ln : Vector) (GM R : Double) (maxDegree : nat) : list Assignment :=
  seq 0 (length point) ≫= fun k =>
    match point !! k, gravity_ !! k with
    | Some p, Some g => point_writes hn ln GM R maxDegree k p g
    | _, _ => []
    end.

(** The coordinate of a displacement that goes to the row [3*k+i]. *)
Definition coordinate (i : nat) (d : Vector3d) : Double :=
  match i with 0 => vx d | 1 => vy d | _ => vz d end.

(** A row of a point after the assignments [ws] for that point. *)
Definition row_after (i : nat) (ws : list (nat * Vector3d)) (row : list Double)
  : list Double :=
  fold_left (fun row w => <[w.1 := coordinate i w.2]> row) ws row.

(** The column of a coefficient: [offset] is 0 for order 0, [2*m-1] for
    the cosine and [2*m] for the sine coefficient of order [m >= 1]. *)
Definition coefficient_column (n offset : nat) : nat := n * n + offset.

(** The columns in the order in which the loops assign them, when no
    column number wraps around. *)
Definition assigned_columns (maxDegree : nat) : list nat :=
  ((fun n => n * n) <$> seq 0 (maxDegree + 1)) ++
  (seq 1 maxDegree ≫= fun m =>
   seq m (maxDegree + 1 - m) ≫= fun n => [n * n + 2 * m - 1; n * n + 2 * m]).

(** The assignments for the point [k], when no column number wraps
    around. *)
Definition point_assignments (hn ln : Vector) (GM R : Double) (maxDegree : nat)
    (k : nat) (p : Vector3d) (g : Double) : list Assignment :=
  let up := normalize p in
  let CS := CnmSnm (Vector3d_scale (d_of_Z 1 / R)%D p) (maxDegree + 1) in
  ((fun n => (k, n * n, disp_order0 hn ln GM R up CS.1 CS.2 g n))
     <$> seq 0 (maxDegree + 1)) ++
  (seq 1 maxDegree ≫= fun m =>
   seq m (maxDegree + 1 - m) ≫= fun n =>
     [(k, n * n + 2 * m - 1, disp_cos hn ln GM R up CS.1 CS.2 g n m);
      (k, n * n + 2 * m, disp_sin hn ln GM R up CS.1 CS.2 g n m)]).

(** The assignments of the whole matrix. *)
Definition matrix_assignments (point : list Vector3d) (gravity_ : list Double)
    (hn ln : Vector) (GM R : Double) (maxDegree : nat) : list Assignment :=
  seq 0 (length point) ≫= fun k =>
    match point !! k, gravity_ !! k with
    | Some p, Some g => point_assignments hn ln GM R maxDegree k p g
    | _, _ => []
    end.

(** The three entries of column [c] that belong to the point [k]. *)
Definition column_at (A : Matrix) (k c : nat) : Vector3d :=
  mkVector3d (Matrix_get A (3 * k + 0) c)
             (Matrix_get A (3 * k + 1) c)
             (Matrix_get A (3 * k + 2) c).

End Assignments.

(** *** The array [disp] *)

Section Displacements.
Context `{DoubleOps}.

(** [f k i] applied to the entry of point [k] and epoch [i]. *)
Definition map2d {T} (f : nat -> nat -> T -> T) (d : list (list T))
  : list (list T) :=
  imap (fun k => imap (f k)) d.

(** [(Ax(3*k+0), Ax(3*k+1), Ax(3*k+2))] *)
Definition Ax_block (Ax : Vector) (k : nat) : Vector3d :=
  mkVector3d (Vector_get Ax (3 * k + 0))
             (Vector_get Ax (3 * k + 1))
             (Vector_get Ax (3 * k + 2)).

(** [disp] with the block of point [k] of [Ax i] added to the entry of
    point [k] and epoch [i], for the first [K] points and [n] epochs. *)
Definition add_displacements (K n : nat) (Ax : nat -> Vector)
    (disp : list (list Vector3d)) : list (list Vector3d) :=
  map2d (fun k i v =>
           if (k <? K) && (i <? n) then Vector3d_add v (Ax_block (Ax i) k) else v)
        disp.

(** The same for the single epoch [i]. *)
Definition add_displacement_at (K i : nat) (Ax : Vector)
    (disp : list (list Vector3d)) : list (list Vector3d) :=
  map2d (fun k c v =>
           if (k <? K) && (c =? i) then Vector3d_add v (Ax_block Ax k) else v)
        disp.

End Displacements.

(** *** Harmonics over binary64

    Collaborators in which [deformationMatrix] and the batch deformation
    can be run: the harmonics are their constants and coefficient vector,
    [A * x] is the row by row dot product, and [CnmSnm] is a table of
    stand-in values. *)

Record Harmonics64 := mkHarmonics64 {
  h_GM : float; h_R : float; h_maxDegree : nat; h_x : list float }.

Definition dot64 (row x : list float) : float :=
  fold_left (fun s ab => (s + ab.1 * ab.2)%float) (combine row x) 0%float.

Definition times64 (A : @Matrix binary64) (x : list float) : result (list float) :=
  if columns A =? length x then Ok (map (fun row => dot64 row x) (cells A))
  else Throw (Collaborator "Matrix*Vector: dimension error").

Definition inner64 (a b : @Vector3d binary64) : float :=
  (vx a * vx b + vy a * vy b + vz a * vz b)%float.

Definition normalize64 (a : @Vector3d binary64) : @Vector3d binary64 :=
  Vector3d_scale (1 / PrimFloat.sqrt (inner64 a a))%float a.

Definition table64 (degree : nat) (f : nat -> nat -> float) : @Matrix binary64 :=
  mkMatrix (degree + 1) (degree + 1)
    (map (fun n => map (f n) (seq 0 (degree + 1))) (seq 0 (degree + 1))).

Definition CnmSnm64 (p : @Vector3d binary64) (degree : nat)
  : @Matrix binary64 * @Matrix binary64 :=
  (table64 degree (fun n m => (vx p / d_of_nat (1 + n + m))%float),
   table64 degree (fun n m => (d_of_nat m * vx p / d_of_nat (1 + n + m))%float)).

Definition harmonics64 : @SphericalHarmonicsOps binary64 Harmonics64 := {|
  SH_default := mkHarmonics64 0 0 0 [];
  SH_add := fun a b =>
    mkHarmonics64 (h_GM a) (h_R a) (Nat.max (h_maxDegree a) (h_maxDegree b))
                  (zip_with PrimFloat.add (h_x a) (h_x b));
  SH_GM := h_GM;
  SH_R := h_R;
  SH_maxDegree := h_maxDegree;
  SH_x := h_x;
  SH_potential := fun h p => (h_GM h / h_R h * dot64 (h_x h) [1])%float;
  SH_radialGradient := fun h p => (0 - h_GM h / (h_R h * h_R h) * dot64 (h_x h) [1])%float;
  SH_gravity := fun h p =>
    Vector3d_scale (0 - h_GM h / (h_R h * h_R h) * dot64 (h_x h) [1])%float
                   (normalize64 p);
  SH_gravityGradient := fun h p => Tensor3d_default;
  SH_deformation := fun h p g hn ln =>
    Vector3d_scale (Vector_get hn 0 / g * (h_GM h / h_R h * dot64 (h_x h) [1]))%float
                   (normalize64 p);
  CnmSnm := CnmSnm64;
  Matrix_times_Vector := times64;
  normalize := normalize64;
  inner := inner64;
  INFINITYDEGREE := 1000;
  DEFAULT_GM := 3.986004415e+14%float;
  DEFAULT_R := 6378136.3%float
|}.

(** One point on the equator, one epoch, harmonics up to degree 1. *)
Definition test_point : list (@Vector3d binary64) :=
  [mkVector3d 6378136.3 0 0]%float.
Definition test_gravity : list float := [9.8]%float.
Definition test_hn : list float := [0.6; 0.6]%float.
Definition test_ln : list float := [0.08; 0.08]%float.
Definition test_disp : list (list (@Vector3d binary64)) :=
  [[mkVector3d 1 2 3]]%float.

Definition test_harmonics
  : unit -> unit -> unit -> unit -> nat -> nat -> float -> float
    -> result Harmonics64 :=
  fun _ _ _ _ _ _ GM R =>
    Ok (mkHarmonics64 GM R 1 [1e-9; 2e-9; 3e-9; 4e-9]%float).

Definition test_matrix : @Matrix binary64 :=
  Eval vm_compute in
    match batch_matrix (H0 := harmonics64) test_harmonics [tt] test_point [tt]
                       tt tt test_gravity test_hn test_ln with
    | inr A => A
    | inl _ => Matrix_new 0 0
    end.

Definition test_Ax : list float :=
  Eval vm_compute in
    match epoch_Ax (H0 := harmonics64) test_harmonics [tt] [tt] tt tt
                   test_matrix 0 with
    | inr Ax => Ax
    | inl _ => []
    end.

(** *** Further auxiliary notions *)

(** A component every method of which throws [e]. *)
Definition throwing_tide `{DoubleOps} (e : Exception)
  : @TidesBase _ unit unit unit unit unit :=
  mkTidesBase
    (fun _ _ _ _ _ => Throw e)
    (fun _ _ _ _ _ => Throw e)
    (fun _ _ _ _ _ => Throw e)
    (fun _ _ _ _ _ => Throw e)
    (fun _ _ _ _ _ _ _ _ => Throw e)
    (fun _ _ _ _ _ _ _ _ _ => Throw e)
    (fun _ _ _ _ _ _ _ _ => Throw e).

(** [m] returns a value. *)
Definition returns {T} (m : result T) : Prop := exists v, m = Ok v.

(** The entry of point [k] and epoch [i] of the array [disp], if there. *)
Definition entry {T} (disp : list (list T)) (k i : nat) : option T :=
  match disp !! k with Some row => row !! i | None => None end.

(** Two arrays with as many rows and, row by row, as many entries. *)
Definition same_shape {T} (d d' : list (list T)) : Prop :=
  length d' = length d /\
  forall k, length <$> d' !! k = length <$> d !! k.

(** A degree at which the column count [(maxDegree+1)*(maxDegree+1)] wraps
    around: 2^32 - 1. *)
Definition wrapping_maxDegree : nat := Z.to_nat 4294967295.

(** *** Two points on the equator, evaluated *)

Definition test_GM : float := 3.986004415e+14%float.
Definition test_R : float := 6378136.3%float.

Definition test_point2 : list (@Vector3d binary64) :=
  [mkVector3d 0 6378136.3 0; mkVector3d 6378136.3 0 0]%float.
Definition test_gravity2 : list float := [9.7; 9.8]%float.

Definition test_matrix1 : @Matrix binary64 :=
  Eval vm_compute in
    match TidesBase_deformationMatrix (H0 := harmonics64) test_point test_gravity
            test_hn test_ln test_GM test_R 1 with
    | inr A => A
    | inl _ => Matrix_new 0 0
    end.

Definition test_matrix2 : @Matrix binary64 :=
  Eval vm_compute in
    match TidesBase_deformationMatrix (H0 := harmonics64) test_point2 test_gravity2
            test_hn test_ln test_GM test_R 1 with
    | inr A => A
    | inl _ => Matrix_new 0 0
    end.

Definition test_disp_after : list (list (@Vector3d binary64)) :=
  Eval vm_compute in
    match TidesBase_deformation_batch (H0 := harmonics64) test_harmonics [tt]
            test_point [tt] tt tt test_gravity test_hn test_ln test_disp with
    | inr d => d
    | inl _ => []
    end.

Definition test_field : Harmonics64 :=
  mkHarmonics64 test_GM test_R 1 [1e-9; 2e-9; 3e-9; 4e-9]%float.

Definition test_p : @Vector3d binary64 := (mkVector3d 6378136.3 0 0)%float.

(** * Properties *)

(** ** Loops *)

Lemma for_each_app {S T} (body : S -> T -> result S) (acc : S) (l1 l2 : list T) :
  for_each body acc (l1 ++ l2) =
  (do a <- for_each body acc l1; for_each body a l2).
Proof.
  revert acc; induction l1 as [|c l1 IH]; intros acc; simpl; [reflexivity|].
  destruct (body acc c) as [e|acc']; simpl; [reflexivity|apply IH].
Qed.

Lemma accumulate_app {T C} (add : T -> T -> T) (f : C -> result T) acc l1 l2 :
  accumulate add f acc (l1 ++ l2) =
  (do a <- accumulate add f acc l1; accumulate add f a l2).
Proof. apply for_each_app. Qed.

(** With an associative addition the start value can be added afterwards. *)
Lemma accumulate_shift {T C} (add : T -> T -> T) (f : C -> result T)
    (assoc : forall a b c, add (add a b) c = add a (add b c)) x y l :
  accumulate add f (add x y) l =
  (do s <- accumulate add f y l; Ok (add x s)).
Proof.
  revert y; induction l as [|c l IH]; intros y; [reflexivity|].
  unfold accumulate in *; simpl.
  destruct (f c) as [e|v]; simpl; [reflexivity|].
  rewrite assoc. apply IH.
Qed.

Lemma accumulate_app_sum {T C} (add : T -> T -> T) (zero : T) (f : C -> result T)
    (assoc : forall a b c, add (add a b) c = add a (add b c))
    (zero_r : forall a, add a zero = a) l1 l2 :
  accumulate add f zero (l1 ++ l2) =
  sum_results add (accumulate add f zero l1) (accumulate add f zero l2).
Proof.
  rewrite accumulate_app. unfold sum_results.
  destruct (accumulate add f zero l1) as [e|a]; simpl; [reflexivity|].
  rewrite <- (zero_r a) at 1. apply accumulate_shift, assoc.
Qed.

(** When no component throws, the accumulation is the sum of the
    contributions from left to right. *)
Lemma accumulate_values {T C} (add : T -> T -> T) (f : C -> result T) l vs :
  Forall2 (fun c v => f c = Ok v) l vs ->
  forall acc, accumulate add f acc l = Ok (fold_left add vs acc).
Proof.
  induction 1 as [|c v l vs Hc _ IH]; intros acc; [reflexivity|].
  unfold accumulate in *; simpl. rewrite Hc; simpl. apply IH.
Qed.

Section GeometryFacts.
Context `{DoubleOps}.
Hypothesis assoc : add_associative.
Hypothesis zero_r : add_zero_right.

Lemma Vector3d_add_assoc (a b c : Vector3d) :
  Vector3d_add (Vector3d_add a b) c = Vector3d_add a (Vector3d_add b c).
Proof using assoc. unfold Vector3d_add; simpl. by rewrite !assoc. Qed.

Lemma Vector3d_add_default (a : Vector3d) : Vector3d_add a Vector3d_default = a.
Proof using zero_r. destruct a; unfold Vector3d_add; simpl. by rewrite !zero_r. Qed.

Lemma Tensor3d_add_assoc (a b c : Tensor3d) :
  Tensor3d_add (Tensor3d_add a b) c = Tensor3d_add a (Tensor3d_add b c).
Proof using assoc. unfold Tensor3d_add; simpl. by rewrite !assoc. Qed.

Lemma Tensor3d_add_default (a : Tensor3d) : Tensor3d_add a Tensor3d_default = a.
Proof using zero_r. destruct a; unfold Tensor3d_add; simpl. by rewrite !zero_r. Qed.
End GeometryFacts.

(** ** The aggregator *)

Section TidesFacts.
Context `{DoubleOps}.
Context {Time Rotary3d EarthRotationPtr EphemeridesPtr SphericalHarmonics : Type}.
Context `{!@SphericalHarmonicsOps _ SphericalHarmonics}.
Local Abbreviation Component :=
  (@TidesBase _ Time Rotary3d EarthRotationPtr EphemeridesPtr SphericalHarmonics).
Variable (timeGPS : Time) (point : Vector3d) (rotEarth : Rotary3d).
Variable (rotation : EarthRotationPtr) (ephemerides : EphemeridesPtr).

(** C6. An aggregator without components returns the potential 0, the
    radial gradient 0, the zero acceleration vector, the zero gradient
    tensor and the default constructed (empty) spherical harmonics,
    whatever the inputs; it does not throw. *)
Theorem Tides_empty_returns_zero (maxDegree minDegree : nat) (GM R : Double) :
  let tides : list Component := [] in
  Tides_potential timeGPS point rotEarth rotation ephemerides tides = Ok d_zero /\
  Tides_radialGradient timeGPS point rotEarth rotation ephemerides tides = Ok d_zero /\
  Tides_acceleration timeGPS point rotEarth rotation ephemerides tides
    = Ok (mkVector3d d_zero d_zero d_zero) /\
  Tides_gradient timeGPS point rotEarth rotation ephemerides tides
    = Ok (mkTensor3d d_zero d_zero d_zero d_zero d_zero d_zero) /\
  Tides_sphericalHarmonics timeGPS rotEarth rotation ephemerides tides
    maxDegree minDegree GM R = Ok SH_default.
Proof. repeat split. Qed.

(** C3 (as the code has it). For all component lists A and B and the same
    inputs, the potential, radial gradient, acceleration and gradient over
    A ++ B are obtained by continuing, over the components of B in order,
    the accumulation that gave the result over A; when no component throws,
    each aggregate is the sum, from left to right and starting from zero,
    of the contributions in configuration order.  Where addition of doubles
    is associative with a + 0 = a (exact arithmetic), the result over
    A ++ B is the sum of the results over A and over B. *)
Theorem Tides_aggregate_app (A B : list Component) :
  let V c := potential c timeGPS point rotEarth rotation ephemerides in
  let dVdr c := radialGradient c timeGPS point rotEarth rotation ephemerides in
  let g c := gravity c timeGPS point rotEarth rotation ephemerides in
  let T c := gravityGradient c timeGPS point rotEarth rotation ephemerides in
  let potential_ := Tides_potential timeGPS point rotEarth rotation ephemerides in
  let radialGradient_ := Tides_radialGradient timeGPS point rotEarth rotation ephemerides in
  let acceleration_ := Tides_acceleration timeGPS point rotEarth rotation ephemerides in
  let gradient_ := Tides_gradient timeGPS point rotEarth rotation ephemerides in
  (potential_ (A ++ B) = (do a <- potential_ A; accumulate d_add V a B) /\
   radialGradient_ (A ++ B) = (do a <- radialGradient_ A; accumulate d_add dVdr a B) /\
   acceleration_ (A ++ B) = (do a <- acceleration_ A; accumulate Vector3d_add g a B) /\
   gradient_ (A ++ B) = (do a <- gradient_ A; accumulate Tensor3d_add T a B)) /\
  (forall vs, Forall2 (fun c v => V c = Ok v) A vs ->
     potential_ A = Ok (fold_left d_add vs d_zero)) /\
  (forall vs, Forall2 (fun c v => dVdr c = Ok v) A vs ->
     radialGradient_ A = Ok (fold_left d_add vs d_zero)) /\
  (forall vs, Forall2 (fun c v => g c = Ok v) A vs ->
     acceleration_ A = Ok (fold_left Vector3d_add vs Vector3d_default)) /\
  (forall vs, Forall2 (fun c v => T c = Ok v) A vs ->
     gradient_ A = Ok (fold_left Tensor3d_add vs Tensor3d_default)) /\
  (add_associative -> add_zero_right ->
   potential_ (A ++ B) = sum_results d_add (potential_ A) (potential_ B) /\
   radialGradient_ (A ++ B)
     = sum_results d_add (radialGradient_ A) (radialGradient_ B) /\
   acceleration_ (A ++ B)
     = sum_results Vector3d_add (acceleration_ A) (acceleration_ B) /\
   gradient_ (A ++ B) = sum_results Tensor3d_add (gradient_ A) (gradient_ B)).
Proof.
  intros V dVdr g T potential_ radialGradient_ acceleration_ gradient_.
  split; [|split; [|split; [|split; [|split]]]].
  - repeat split; apply accumulate_app.
  - intros vs Hvs. by apply (accumulate_values d_add V).
  - intros vs Hvs. by apply (accumulate_values d_add dVdr).
  - intros vs Hvs. by apply (accumulate_values Vector3d_add g).
  - intros vs Hvs. by apply (accumulate_values Tensor3d_add T).
  - intros assoc zero_r. repeat split.
    + apply (accumulate_app_sum d_add d_zero V); [apply assoc|apply zero_r].
    + apply (accumulate_app_sum d_add d_zero dVdr); [apply assoc|apply zero_r].
    + apply (accumulate_app_sum Vector3d_add Vector3d_default g).
      * by apply Vector3d_add_assoc.
      * by apply Vector3d_add_default.
    + apply (accumulate_app_sum Tensor3d_add Tensor3d_default T).
      * by apply Tensor3d_add_assoc.
      * by apply Tensor3d_add_default.
Qed.

End TidesFacts.

(** In binary64 the potential over [0.1] ++ [0.2; 0.3] is
    0.6000000000000001 and the sum of the potentials over [0.1] and over
    [0.2; 0.3] is 0.6. *)
Lemma Tides_potential_app_binary64 :
  let A := [constant_tide (H := binary64) 0.1%float] in
  let B := [constant_tide (H := binary64) 0.2%float;
            constant_tide (H := binary64) 0.3%float] in
  Tides_potential tt origin tt tt tt (A ++ B) <>
  sum_results d_add (Tides_potential tt origin tt tt tt A)
                    (Tides_potential tt origin tt tt tt B).
Proof.
  intros A B E.
  assert (E' : match Tides_potential tt origin tt tt tt (A ++ B) with
               | inr x => PrimFloat.eqb x 0.6%float | inl _ => false end = false)
    by (vm_compute; reflexivity).
  rewrite E in E'. vm_compute in E'. discriminate.
Qed.

(** Over the real numbers the two agree. *)
Lemma Tides_aggregate_app_exact :
  let A := [constant_tide (H := exactR) 1%R] in
  let B := [constant_tide (H := exactR) 2%R; constant_tide (H := exactR) 3%R] in
  Tides_potential (H := exactR) tt origin tt tt tt (A ++ B) =
  sum_results Rplus (Tides_potential (H := exactR) tt origin tt tt tt A)
                    (Tides_potential (H := exactR) tt origin tt tt tt B).
Proof.
  intros A B.
  refine (proj1 (proj2 (proj2 (proj2 (proj2 (proj2
    (Tides_aggregate_app (H := exactR) tt origin tt tt tt A B))))) _ _)).
  - intros a b c. apply Rplus_assoc.
  - intros a. apply Rplus_0_r.
Defined.

(** ** Earth orientation parameters *)

Lemma for_each_invariant {S T} (P : S -> Prop) (body : S -> T -> result S) :
  (forall s x s', P s -> body s x = Ok s' -> P s') ->
  forall l s s', P s -> for_each body s l = Ok s' -> P s'.
Proof.
  intros Hstep l; induction l as [|x l IH]; intros s s' Hs; simpl.
  - intros [= <-]. exact Hs.
  - destruct (body s x) as [e|s1] eqn:E; simpl; [discriminate|].
    apply IH. eapply Hstep; eauto.
Qed.

(** What a loop throws, its body throws. *)
Lemma for_each_throws {S T} (body : S -> T -> result S) l s e :
  for_each body s l = Throw e -> exists s1 x, body s1 x = Throw e.
Proof.
  revert s; induction l as [|x l IH]; intros s; simpl; [discriminate|].
  destruct (body s x) as [e1|s1] eqn:E; simpl.
  - intros [= <-]. eauto.
  - apply IH.
Qed.

Section EarthRotationFacts.
Context `{DoubleOps}.
Context {Time Polynomial : Type}.
Context `{!@IersOps _ Time Polynomial}.

Local Abbreviation Object := (@EarthRotationIers2010 _ Time Polynomial).
Local Abbreviation get0 row :=
  (match row !! 0 with Some v => v | None => d_zero end).

Lemma Matrix_get_cells (A : Matrix) i j row :
  cells A !! i = Some row ->
  Matrix_get A i j = match row !! j with Some v => v | None => d_zero end.
Proof. intros E. unfold Matrix_get. by rewrite E. Qed.

Lemma remove_leap_seconds_rows times_ E i E' :
  remove_leap_seconds times_ E i = Ok E' -> rows E' = rows E.
Proof.
  unfold remove_leap_seconds.
  destruct (at_ times_ i) as [e|t]; simpl; [discriminate|].
  by intros [= <-].
Qed.

Lemma remove_leap_seconds_throws times_ E i e :
  remove_leap_seconds times_ E i = Throw e -> e = StdOutOfRange.
Proof.
  unfold remove_leap_seconds, at_.
  destruct (times_ !! i); simpl; [discriminate|]. by intros [= <-].
Qed.

(** The times that the constructor reads from the first column. *)
Lemma file_times_lookup (raw : Matrix) i row :
  length (cells raw) = rows raw ->
  cells raw !! i = Some row ->
  map (fun i => mjd2time (Matrix_get raw i 0)) (seq 0 (rows raw)) !! i
  = Some (mjd2time (get0 row)).
Proof.
  intros Hlen Hrow.
  assert (i < rows raw) by (rewrite <- Hlen; by eapply lookup_lt_Some).
  rewrite list_lookup_fmap, lookup_seq_lt by done; simpl.
  by rewrite (Matrix_get_cells raw i 0 row).
Qed.

(** The loop that turns UT1-UTC into UT1-GPS, row by row. *)
Lemma remove_leap_seconds_loop (raw : Matrix) (j : nat) :
  length (cells raw) = rows raw ->
  j <= rows raw ->
  let times_ := map (fun i => mjd2time (Matrix_get raw i 0)) (seq 0 (rows raw)) in
  for_each (remove_leap_seconds times_) (Matrix_column raw 1 6) (seq 0 j)
  = Ok (mkMatrix (rows raw) 6
          (map UT1_minus_GPS_row (take j (cells raw)) ++
           map (fun row => take 6 (drop 1 row)) (drop j (cells raw)))).
Proof.
  intros Hlen Hj times_. induction j as [|j IH].
  - simpl. unfold Matrix_column. by rewrite drop_0.
  - rewrite seq_S, for_each_app, IH by lia. simpl.
    destruct (lookup_lt_is_Some_2 (cells raw) j) as [row Hrow]; [lia|].
    unfold remove_leap_seconds, at_.
    unfold times_. rewrite (file_times_lookup raw j row) by done. simpl.
    unfold Ok. do 2 f_equal. unfold Matrix_set, Matrix_get; simpl.
    assert (Hlt : length (map UT1_minus_GPS_row (take j (cells raw))) = j)
      by (rewrite length_map, length_take; lia).
    rewrite lookup_app_r by lia. rewrite Hlt, Nat.sub_diag.
    rewrite (drop_S _ _ _ Hrow). simpl.
    rewrite (take_S_r _ _ _ Hrow), map_app; simpl.
    rewrite <- (Nat.add_0_r j) at 1. rewrite <- Hlt at 1.
    rewrite alter_app_r. simpl. rewrite <- app_assoc. simpl. done.
Qed.

(** The object that the constructor builds from a file. *)
Lemma EarthRotationIers2010_new_loaded (config : Config) (raw : Matrix) :
  isCreateSchema config = false ->
  inputfileEOP config <> ""%string ->
  readFileEarthOrientationParameter (inputfileEOP config) = Some raw ->
  length (cells raw) = rows raw ->
  EarthRotationIers2010_new false config
  = Ok (mkEarthRotationIers2010
          (map (fun i => mjd2time (Matrix_get raw i 0)) (seq 0 (rows raw)))
          (mkMatrix (rows raw) 6 (map stored_row (cells raw)))
          (truncatedNutation config)
          (Polynomial_init Polynomial_default 3)).
Proof.
  intros Hschema Hname Hread Hlen. unfold EarthRotationIers2010_new.
  rewrite Hschema. destruct (String.eqb_spec (inputfileEOP config) "") as [E|_];
    [by destruct Hname|].
  rewrite Hread. change (rows (Matrix_column raw 1 6)) with (rows raw).
  rewrite remove_leap_seconds_loop by done. simpl.
  rewrite firstn_all2, drop_ge, app_nil_r by lia.
  unfold Ok. do 2 f_equal. unfold Matrix_scale_column; simpl.
  f_equal. rewrite !map_map. reflexivity.
Qed.

(** The outputs, read off the model part. *)
Lemma models_fields (self : Object) (timeGPS : Time)
    (xp0 yp0 deltaUT0 LOD0 dX dY : Double) :
  let mjdUTC := Time_mjd (timeGPS2UTC timeGPS) in
  let timeTT := timeGPS2TT timeGPS in
  let out := models self timeGPS (xp0, yp0, deltaUT0, LOD0, dX, dY) in
  let XYS := precession_nutation (useTruncated self) (julian_date1 timeTT)
                                 (Time_mjdMod timeTT) in
  xp out = ((xp0 + micro_arcsec2rad (ortho_eop mjdUTC).1.1)
            + micro_arcsec2rad (pmsdnut2 mjdUTC).1)%D /\
  yp out = ((yp0 + micro_arcsec2rad (ortho_eop mjdUTC).1.2)
            + micro_arcsec2rad (pmsdnut2 mjdUTC).2)%D /\
  sp out = eraSp00 (julian_date1 timeTT) (Time_mjdMod timeTT) /\
  deltaUT out = ((deltaUT0 + (ortho_eop mjdUTC).2 * lit_1e_6)
                 + (utlibr mjdUTC).1 * lit_1e_6)%D /\
  LOD out = (LOD0 + (utlibr mjdUTC).2 * lit_1e_6)%D /\
  X out = (XYS.1.1 + dX)%D /\
  Y out = (XYS.1.2 + dY)%D /\
  S out = XYS.2.
Proof.
  cbv zeta. unfold models.
  destruct (ortho_eop _) as [[dx dy] du].
  destruct (pmsdnut2 _) as [pm0 pm1].
  destruct (utlibr _) as [dut1 dlod].
  destruct (precession_nutation _ _ _) as [[X0 Y0] S0].
  simpl. repeat split.
Qed.

(** A query inside the covered interval. *)
Lemma interpolated_in_range (self : Object) (timeGPS : Time)
    first back eop :
  Matrix_size (EOP self) <> 0 ->
  times self !! 0 = Some first ->
  last (times self) = Some back ->
  Time_lt (timeGPS2UTC timeGPS) first = false ->
  Time_gt (timeGPS2UTC timeGPS) back = false ->
  Polynomial_interpolate (polynomial self) [timeGPS2UTC timeGPS] (times self)
                         (EOP self) 1 = Some eop ->
  interpolated self timeGPS
  = Ok (Matrix_get eop 0 0, Matrix_get eop 0 1,
        (Matrix_get eop 0 2
         + Time_seconds (Time_minus timeGPS (timeGPS2UTC timeGPS)))%D,
        Matrix_get eop 0 3, Matrix_get eop 0 4, Matrix_get eop 0 5).
Proof.
  intros Hsize Hfirst Hback Hlt Hgt Hint. unfold interpolated, at_.
  apply Nat.eqb_neq in Hsize. rewrite Hsize, Hfirst. simpl.
  rewrite Hback, Hlt, Hgt. simpl. by rewrite Hint.
Qed.

(** A query outside the covered interval. *)
Lemma interpolated_out_of_range (self : Object) (timeGPS : Time)
    first back :
  Matrix_size (EOP self) <> 0 ->
  times self !! 0 = Some first ->
  last (times self) = Some back ->
  Time_lt (timeGPS2UTC timeGPS) first = true \/
  Time_gt (timeGPS2UTC timeGPS) back = true ->
  interpolated self timeGPS = Throw (NoEOPsAvailable (Time_dateTimeStr timeGPS)).
Proof.
  intros Hsize Hfirst Hback Hout. unfold interpolated, at_.
  apply Nat.eqb_neq in Hsize. rewrite Hsize, Hfirst. simpl.
  rewrite Hback.
  replace (Time_lt _ first || Time_gt _ back) with true; [done|].
  destruct Hout as [-> | ->]; [done|]. by rewrite orb_true_r.
Qed.

(** An object with a non-empty table comes from a build with ERFA and has
    as many times as rows. *)
Lemma EarthRotationIers2010_new_nonempty nolib config self :
  EarthRotationIers2010_new nolib config = Ok self ->
  Matrix_size (EOP self) <> 0 ->
  nolib = false /\ exists first back,
    times self !! 0 = Some first /\ last (times self) = Some back.
Proof.
  unfold EarthRotationIers2010_new.
  destruct (isCreateSchema config); [by intros [= <-]|].
  destruct nolib; [discriminate|].
  destruct (String.eqb _ _); [by intros [= <-]|].
  destruct (readFileEarthOrientationParameter _) as [raw|]; [|discriminate].
  destruct (for_each _ _ _) as [e|E] eqn:Hloop; simpl; [discriminate|].
  intros [= <-]; simpl. intros Hsize. split; [done|].
  apply (for_each_invariant (fun E => rows E = rows raw)) in Hloop;
    [| intros s x s' Hs Hb; apply remove_leap_seconds_rows in Hb; congruence
     | done ].
  unfold Matrix_size in Hsize; simpl in Hsize.
  change (rows (Matrix_column raw 1 6)) with (rows raw) in *.
  destruct (rows raw) as [|r] eqn:Hr; [by rewrite Hloop in Hsize|].
  set (f := fun i => mjd2time (Matrix_get raw i 0)).
  exists (f 0), (f r). split; [done|].
  rewrite seq_S, map_app; simpl. apply last_snoc.
Qed.

(** C1. For an object loaded from a file with at least one row, a query
    whose UTC time is before the first or after the last sample time throws
    "No EOPs available" (nothing is extrapolated), and a query whose UTC
    time is neither before the first nor after the last sample time does
    not throw that exception. *)
Theorem earthOrientationParameter_coverage
    (nolib : bool) (config : Config) (self : Object)
    (timeGPS : Time) :
  EarthRotationIers2010_new nolib config = Ok self ->
  Matrix_size (EOP self) <> 0 ->
  exists first back,
    times self !! 0 = Some first /\ last (times self) = Some back /\
    let timeUTC := timeGPS2UTC timeGPS in
    (Time_lt timeUTC first = true \/ Time_gt timeUTC back = true ->
     earthOrientationParameter nolib self timeGPS
     = Throw (NoEOPsAvailable (Time_dateTimeStr timeGPS))) /\
    (Time_lt timeUTC first = false /\ Time_gt timeUTC back = false ->
     forall s, earthOrientationParameter nolib self timeGPS
               <> Throw (NoEOPsAvailable s)).
Proof.
  intros Hnew Hsize.
  destruct (EarthRotationIers2010_new_nonempty _ _ _ Hnew Hsize)
    as [-> (first & back & Hfirst & Hback)].
  exists first, back. split; [done|]. split; [done|]. split.
  - intros Hout. unfold earthOrientationParameter.
    by rewrite (interpolated_out_of_range self timeGPS first back).
  - intros [Hlt Hgt] s. unfold earthOrientationParameter, interpolated, at_.
    apply Nat.eqb_neq in Hsize. rewrite Hsize, Hfirst; simpl.
    rewrite Hback, Hlt, Hgt; simpl.
    destruct (Polynomial_interpolate _ _ _ _ _); simpl; discriminate.
Qed.

(** C5 (as the code has it). In a build without ERFA the constructor
    itself throws "Compiled without ERFA library", with or without an EOP
    file, unless it only creates the schema; every call of
    [earthOrientationParameter] throws it as well.  In a build with ERFA
    neither of the two throws it. *)
Theorem missing_ERFA (config : Config) (self : Object)
    (timeGPS : Time) :
  EarthRotationIers2010_new true config
  = (if isCreateSchema config
     then Ok (mkEarthRotationIers2010 [] (Matrix_new 0 0)
                (truncatedNutation config) Polynomial_default)
     else Throw CompiledWithoutERFA) /\
  earthOrientationParameter true self timeGPS = Throw CompiledWithoutERFA /\
  EarthRotationIers2010_new false config <> Throw CompiledWithoutERFA /\
  earthOrientationParameter false self timeGPS <> Throw CompiledWithoutERFA.
Proof.
  split; [|split; [|split]].
  - unfold EarthRotationIers2010_new. by destruct (isCreateSchema config).
  - reflexivity.
  - unfold EarthRotationIers2010_new.
    destruct (isCreateSchema config); [discriminate|].
    destruct (String.eqb _ _); [discriminate|].
    destruct (readFileEarthOrientationParameter _) as [raw|]; [|discriminate].
    destruct (for_each _ _ _) as [e|E] eqn:Hloop; simpl; [|discriminate].
    apply for_each_throws in Hloop as (s1 & x & Hb).
    apply remove_leap_seconds_throws in Hb as ->. discriminate.
  - unfold earthOrientationParameter, interpolated, at_.
    destruct (Matrix_size _ =? 0); simpl; [discriminate|].
    destruct (times self !! 0); simpl; [|discriminate].
    destruct (_ || _); simpl; [discriminate|].
    destruct (Polynomial_interpolate _ _ _ _ _); simpl; discriminate.
Qed.

(** C9. Without an EOP file the constructor (of a build with ERFA) gives an
    object with an empty table, and for every query time
    [earthOrientationParameter] returns: the file contributes 0 to xp, yp,
    deltaUT, LOD, dX and dY, so that the outputs are the short-period
    models ([ortho_eop], [pmsdnut2], [utlibr], scaled as the code scales
    them), sp from [eraSp00], and precession and nutation alone: X, Y, S
    from [eraXys00b] when the truncated series is selected, X, Y from
    [eraXy06] and S from [eraS06] at that X, Y otherwise, all at the date
    [2400000.5 + timeTT.mjdInt()], [timeTT.mjdMod()]; "No EOPs available"
    is not thrown, in no build. *)
Theorem earthOrientationParameter_without_file
    (truncated schema : bool) (timeGPS : Time) :
  let mjdUTC := Time_mjd (timeGPS2UTC timeGPS) in
  let timeTT := timeGPS2TT timeGPS in
  let date1 := (lit_2400000_5 + d_of_Z (Time_mjdInt timeTT))%D in
  let date2 := Time_mjdMod timeTT in
  let arc x := (((x * lit_1e_6) * DEG2RAD) / d_of_Z 3600)%D in
  let X0 := if truncated then (eraXys00b date1 date2).1.1
            else (eraXy06 date1 date2).1 in
  let Y0 := if truncated then (eraXys00b date1 date2).1.2
            else (eraXy06 date1 date2).2 in
  let S0 := if truncated then (eraXys00b date1 date2).2
            else eraS06 date1 date2 (eraXy06 date1 date2).1
                                    (eraXy06 date1 date2).2 in
  exists self,
    EarthRotationIers2010_new false (mkConfig "" truncated schema) = Ok self /\
    Matrix_size (EOP self) = 0 /\
    interpolated self timeGPS
      = Ok (d_zero, d_zero, d_zero, d_zero, d_zero, d_zero) /\
    earthOrientationParameter false self timeGPS
      = Ok (mkEOPValues
              ((d_zero + arc (ortho_eop mjdUTC).1.1) + arc (pmsdnut2 mjdUTC).1)%D
              ((d_zero + arc (ortho_eop mjdUTC).1.2) + arc (pmsdnut2 mjdUTC).2)%D
              (eraSp00 date1 date2)
              ((d_zero + (ortho_eop mjdUTC).2 * lit_1e_6)
               + (utlibr mjdUTC).1 * lit_1e_6)%D
              (d_zero + (utlibr mjdUTC).2 * lit_1e_6)%D
              (X0 + d_zero)%D
              (Y0 + d_zero)%D
              S0) /\
    forall nolib s,
      earthOrientationParameter nolib self timeGPS <> Throw (NoEOPsAvailable s).
Proof.
  intros mjdUTC timeTT date1 date2 arc X0 Y0 S0.
  exists (mkEarthRotationIers2010 [] (Matrix_new 0 0) truncated Polynomial_default).
  split; [by destruct schema|]. split; [done|]. split; [done|]. split.
  - unfold earthOrientationParameter, interpolated; simpl.
    unfold models, precession_nutation, julian_date1, micro_arcsec2rad; simpl.
    unfold X0, Y0, S0, arc, date1, date2, timeTT, mjdUTC.
    destruct (ortho_eop _) as [[dx dy] du].
    destruct (pmsdnut2 _) as [pm0 pm1].
    destruct (utlibr _) as [dut1 dlod].
    destruct truncated.
    + by destruct (eraXys00b _ _) as [[Xs Ys] Ss].
    + by destruct (eraXy06 _ _) as [Xs Ys].
  - intros [|] s; discriminate.
Qed.

Lemma earthOrientationParameter_in_range (self : Object) (timeGPS : Time)
    first back eop :
  Matrix_size (EOP self) <> 0 ->
  times self !! 0 = Some first ->
  last (times self) = Some back ->
  Time_lt (timeGPS2UTC timeGPS) first = false ->
  Time_gt (timeGPS2UTC timeGPS) back = false ->
  Polynomial_interpolate (polynomial self) [timeGPS2UTC timeGPS] (times self)
                         (EOP self) 1 = Some eop ->
  earthOrientationParameter false self timeGPS
  = Ok (models self timeGPS
          (Matrix_get eop 0 0, Matrix_get eop 0 1,
           (Matrix_get eop 0 2
            + Time_seconds (Time_minus timeGPS (timeGPS2UTC timeGPS)))%D,
           Matrix_get eop 0 3, Matrix_get eop 0 4, Matrix_get eop 0 5)).
Proof.
  intros. unfold earthOrientationParameter.
  by rewrite (interpolated_in_range self timeGPS first back eop).
Qed.

(** C7. The constructor multiplies the pole coordinates xp, yp and the
    celestial pole offsets dX, dY of every row of the file by DEG2RAD/3600
    (arc seconds to radians); UT1-UTC and LOD are not scaled (UT1-UTC only
    has the UTC-GPS offset of its row subtracted).  A query inside the
    covered interval interpolates this stored table and returns its values
    without any further scaling, with the model terms (micro arc seconds
    times 1e-6*DEG2RAD/3600, micro seconds times 1e-6) added. *)
Theorem arcseconds_to_radians (config : Config) (raw : Matrix) :
  isCreateSchema config = false ->
  inputfileEOP config <> ""%string ->
  readFileEarthOrientationParameter (inputfileEOP config) = Some raw ->
  length (cells raw) = rows raw ->
  exists self : Object,
    EarthRotationIers2010_new false config = Ok self /\
    (forall i mjd xp_ yp_ dut lod dX dY,
       cells raw !! i = Some [mjd; xp_; yp_; dut; lod; dX; dY] ->
       times self !! i = Some (mjd2time mjd) /\
       cells (EOP self) !! i
       = Some [ (xp_ * (DEG2RAD / d_of_Z 3600))%D;
                (yp_ * (DEG2RAD / d_of_Z 3600))%D;
                (dut - Time_seconds (Time_minus (timeUTC2GPS (mjd2time mjd))
                                                (mjd2time mjd)))%D;
                lod;
                (dX * (DEG2RAD / d_of_Z 3600))%D;
                (dY * (DEG2RAD / d_of_Z 3600))%D ]) /\
    (forall timeGPS first back eop,
       times self !! 0 = Some first ->
       last (times self) = Some back ->
       Time_lt (timeGPS2UTC timeGPS) first = false ->
       Time_gt (timeGPS2UTC timeGPS) back = false ->
       Polynomial_interpolate (polynomial self) [timeGPS2UTC timeGPS]
                              (times self) (EOP self) 1 = Some eop ->
       let mjdUTC := Time_mjd (timeGPS2UTC timeGPS) in
       let timeTT := timeGPS2TT timeGPS in
       let XYS := precession_nutation (useTruncated self) (julian_date1 timeTT)
                                      (Time_mjdMod timeTT) in
       exists out,
         earthOrientationParameter false self timeGPS = Ok out /\
         xp out = ((Matrix_get eop 0 0
                    + (((ortho_eop mjdUTC).1.1 * lit_1e_6) * DEG2RAD) / d_of_Z 3600)
                   + (((pmsdnut2 mjdUTC).1 * lit_1e_6) * DEG2RAD) / d_of_Z 3600)%D /\
         yp out = ((Matrix_get eop 0 1
                    + (((ortho_eop mjdUTC).1.2 * lit_1e_6) * DEG2RAD) / d_of_Z 3600)
                   + (((pmsdnut2 mjdUTC).2 * lit_1e_6) * DEG2RAD) / d_of_Z 3600)%D /\
         LOD out = (Matrix_get eop 0 3 + (utlibr mjdUTC).2 * lit_1e_6)%D /\
         X out = (XYS.1.1 + Matrix_get eop 0 4)%D /\
         Y out = (XYS.1.2 + Matrix_get eop 0 5)%D).
Proof.
  intros Hschema Hname Hread Hlen. eexists.
  split; [by apply EarthRotationIers2010_new_loaded|]. simpl. split.
  - intros i mjd xp_ yp_ dut lod dX dY Hrow. split.
    + by rewrite (file_times_lookup raw i _ Hlen Hrow).
    + by rewrite list_lookup_fmap, Hrow.
  - intros timeGPS first back eop Hfirst Hback Hlt Hgt Hint. cbv zeta.
    eexists. split.
    + eapply earthOrientationParameter_in_range; eauto.
      unfold Matrix_size; simpl.
      apply lookup_lt_Some in Hfirst. rewrite length_map, length_seq in Hfirst. lia.
    + match goal with |- context [models ?s ?t (?a, ?b, ?c, ?d, ?e, ?f)] =>
        destruct (models_fields s t a b c d e f)
          as (Hxp & Hyp & _ & _ & HLOD & HX & HY & _) end.
      by rewrite Hxp, Hyp, HLOD, HX, HY.
Qed.

(** C4 (as the code has it). The constructor stores, for every row of the
    file, UT1-UTC minus the offset [timeUTC2GPS(t) - t] of the row's time
    (UT1-GPS in place of UT1-UTC); a query inside the covered interval
    interpolates this stored series and returns the interpolated value
    plus the offset [timeGPS - timeUTC] of the query instant plus the
    ocean tide and libration terms, each times 1e-6.  Nothing is said
    about continuity: the value returned follows the offset of the query
    instant. *)
Theorem deltaUT_offset_removed_and_restored (config : Config) (raw : Matrix) :
  isCreateSchema config = false ->
  inputfileEOP config <> ""%string ->
  readFileEarthOrientationParameter (inputfileEOP config) = Some raw ->
  length (cells raw) = rows raw ->
  exists self : Object,
    EarthRotationIers2010_new false config = Ok self /\
    (forall i mjd xp_ yp_ dut lod dX dY,
       cells raw !! i = Some [mjd; xp_; yp_; dut; lod; dX; dY] ->
       times self !! i = Some (mjd2time mjd) /\
       Matrix_get (EOP self) i 2
       = (dut - Time_seconds (Time_minus (timeUTC2GPS (mjd2time mjd))
                                         (mjd2time mjd)))%D) /\
    (forall timeGPS first back eop,
       times self !! 0 = Some first ->
       last (times self) = Some back ->
       Time_lt (timeGPS2UTC timeGPS) first = false ->
       Time_gt (timeGPS2UTC timeGPS) back = false ->
       Polynomial_interpolate (polynomial self) [timeGPS2UTC timeGPS]
                              (times self) (EOP self) 1 = Some eop ->
       let mjdUTC := Time_mjd (timeGPS2UTC timeGPS) in
       exists out,
         earthOrientationParameter false self timeGPS = Ok out /\
         deltaUT out
         = (((Matrix_get eop 0 2
              + Time_seconds (Time_minus timeGPS (timeGPS2UTC timeGPS)))
             + (ortho_eop mjdUTC).2 * lit_1e_6)
            + (utlibr mjdUTC).1 * lit_1e_6)%D).
Proof.
  intros Hschema Hname Hread Hlen. eexists.
  split; [by apply EarthRotationIers2010_new_loaded|]. simpl. split.
  - intros i mjd xp_ yp_ dut lod dX dY Hrow. split.
    + by rewrite (file_times_lookup raw i _ Hlen Hrow).
    + unfold Matrix_get; simpl. by rewrite list_lookup_fmap, Hrow.
  - intros timeGPS first back eop Hfirst Hback Hlt Hgt Hint. cbv zeta.
    eexists. split.
    + eapply earthOrientationParameter_in_range; eauto.
      unfold Matrix_size; simpl.
      apply lookup_lt_Some in Hfirst. rewrite length_map, length_seq in Hfirst. lia.
    + match goal with |- context [models ?s ?t (?a, ?b, ?c, ?d, ?e, ?f)] =>
        destruct (models_fields s t a b c d e f) as (_ & _ & _ & Hdut & _) end.
      by rewrite Hdut.
Qed.

End EarthRotationFacts.

(** *** The leap second of 2017-01-01, evaluated *)

Section LeapSecond.
Existing Instance leap_second_world.

(** A query one day before the first row throws "No EOPs available"; a
    query next to the leap second does not. *)
Lemma earthOrientationParameter_coverage_leap_file :
  earthOrientationParameter false leap_object before_file
  = Throw (NoEOPsAvailable "mjd") /\
  (forall s, earthOrientationParameter false leap_object before_leap
             <> Throw (NoEOPsAvailable s)).
Proof.
  assert (Hnew : EarthRotationIers2010_new false leap_config = Ok leap_object)
    by (vm_compute; reflexivity).
  assert (Hsize : Matrix_size (EOP leap_object) <> 0)
    by (vm_compute; discriminate).
  split.
  - destruct (earthOrientationParameter_coverage
                false leap_config leap_object before_file Hnew Hsize)
      as (first & back & Hf & Hb & Hout & _).
    vm_compute in Hf, Hb. injection Hf as <-. injection Hb as <-.
    apply Hout. left. vm_compute. reflexivity.
  - destruct (earthOrientationParameter_coverage
                false leap_config leap_object before_leap Hnew Hsize)
      as (first & back & Hf & Hb & _ & Hin).
    vm_compute in Hf, Hb. injection Hf as <-. injection Hb as <-.
    apply Hin. split; vm_compute; reflexivity.
Defined.

(** In a build without ERFA the constructor throws although no EOP file is
    given. *)
Lemma constructor_without_ERFA_and_without_file :
  EarthRotationIers2010_new true (mkConfig "" false false)
  = Throw CompiledWithoutERFA.
Proof. reflexivity. Qed.

(** The first row of the file, as stored. *)
Lemma arcseconds_to_radians_leap_file :
  exists self,
    EarthRotationIers2010_new false leap_config = Ok self /\
    cells (EOP self) !! 0
    = Some [ (0.10 * (DEG2RAD / 3600))%float;
             (0.30 * (DEG2RAD / 3600))%float;
             (-0.4 - (leap_timeUTC2GPS 57752 - 57752) * day_seconds)%float;
             0.001%float;
             (0.0001 * (DEG2RAD / 3600))%float;
             (0.0002 * (DEG2RAD / 3600))%float ].
Proof.
  destruct (arcseconds_to_radians leap_config leap_file)
    as (self & Hnew & Hrows & _);
    [reflexivity | discriminate | reflexivity | reflexivity |].
  exists self. split; [exact Hnew|].
  refine (proj2 (Hrows 0 57752%float 0.10%float 0.30%float (-0.4)%float
                       0.001%float 0.0001%float 0.0002%float _)).
  reflexivity.
Defined.

Lemma deltaUT_offset_removed_leap_file :
  exists self,
    EarthRotationIers2010_new false leap_config = Ok self /\
    Matrix_get (EOP self) 2 2
    = (0.6 - (leap_timeUTC2GPS 57754 - 57754) * day_seconds)%float.
Proof.
  destruct (deltaUT_offset_removed_and_restored leap_config leap_file)
    as (self & Hnew & Hrows & _);
    [reflexivity | discriminate | reflexivity | reflexivity |].
  exists self. split; [exact Hnew|].
  refine (proj2 (Hrows 2 57754%float 0.12%float 0.32%float 0.6%float
                       0.001%float 0.0001%float 0.0002%float _)).
  reflexivity.
Defined.

(** Two queries 1.2 s apart, 0.1 s before the leap second and 0.1 s after
    it: the stored series is interpolated to -17.3999998072 s at both, and
    the deltaUT returned is -0.39997 s at the first and +0.60003 s at the
    second: it steps by the leap second. *)
Lemma deltaUT_steps_at_leap_second :
  EarthRotationIers2010_new false leap_config = Ok leap_object /\
  ((after_leap - before_leap) * day_seconds)%float = 1.1999997776001692%float /\
  leap_stored_deltaUT before_leap = Some (-17.399999807216606)%float /\
  leap_stored_deltaUT after_leap = Some (-17.399999807215849)%float /\
  leap_deltaUT before_leap = Some (-0.39996660511960713)%float /\
  leap_deltaUT after_leap = Some 0.60003300000037796%float /\
  PrimFloat.ltb 0.999 (0.60003300000037796 - -0.39996660511960713) = true.
Proof. repeat split; vm_compute; reflexivity. Qed.

End LeapSecond.

(** *** Without a file, evaluated *)

Section WithoutFile.
Existing Instance series_world.

(** The query at noon of MJD 57754 (TT: MJD 57755, 0.75 of a day, so that
    the date of the series is 2457755.5 and 0.75; UTC: MJD 57754.375):
    with the truncated series X, Y, S are those of [eraXys00b], with the
    full one X, Y are those of [eraXy06] and S that of [eraS06]; the other
    five outputs are the same. *)
Lemma earthOrientationParameter_without_file_at_noon :
  (exists self,
     EarthRotationIers2010_new false (mkConfig "" true false) = Ok self /\
     earthOrientationParameter false self noon
     = Ok (mkEOPValues 5.6001676728904436e-07 5.6002646356266662e-07
             2457754.75 0.11551575 0.057760374999999996
             2457755.5 0.75 2457756.25)%float) /\
  (exists self,
     EarthRotationIers2010_new false (mkConfig "" false false) = Ok self /\
     earthOrientationParameter false self noon
     = Ok (mkEOPValues 5.6001676728904436e-07 5.6002646356266662e-07
             2457754.75 0.11551575 0.057760374999999996
             1.75 2457756.5 7373271)%float).
Proof.
  split.
  - destruct (earthOrientationParameter_without_file true false noon)
      as (self & Hnew & _ & _ & Hout & _).
    exists self. split; [exact Hnew|].
    etrans; [exact Hout|]. vm_compute. reflexivity.
  - destruct (earthOrientationParameter_without_file false false noon)
      as (self & Hnew & _ & _ & Hout & _).
    exists self. split; [exact Hnew|].
    etrans; [exact Hout|]. vm_compute. reflexivity.
Defined.

End WithoutFile.

(** ** The deformation matrix *)

Section MatrixFacts.
Context `{DoubleOps}.

Lemma Matrix_new_wf r c : Matrix_wf (Matrix_new r c).
Proof.
  split; simpl; [apply length_replicate|].
  apply Forall_replicate, length_replicate.
Qed.

Lemma Matrix_set_wf (A : Matrix) i j v : Matrix_wf A -> Matrix_wf (Matrix_set A i j v).
Proof.
  intros [Hr Hc]. split; simpl; [by rewrite length_alter|].
  apply Forall_alter; [done|]. intros row Hrow Hlen. by rewrite length_insert.
Qed.

Lemma Matrix_get_set_eq (A : Matrix) i j v :
  Matrix_wf A -> i < rows A -> j < columns A ->
  Matrix_get (Matrix_set A i j v) i j = v.
Proof.
  intros [Hr Hc] Hi Hj. unfold Matrix_get, Matrix_set; simpl.
  rewrite list_lookup_alter_eq.
  destruct (lookup_lt_is_Some_2 (cells A) i) as [row Hrow]; [lia|].
  rewrite Hrow; simpl.
  rewrite list_lookup_insert_eq; [done|].
  rewrite Forall_lookup in Hc. rewrite (Hc _ _ Hrow). done.
Qed.

Lemma Matrix_get_set_ne (A : Matrix) i j v i' j' :
  i <> i' \/ j <> j' ->
  Matrix_get (Matrix_set A i j v) i' j' = Matrix_get A i' j'.
Proof.
  intros Hne. unfold Matrix_get, Matrix_set; simpl.
  destruct (decide (i = i')) as [<-|Hi].
  - rewrite list_lookup_alter_eq. destruct (cells A !! i) as [row|]; simpl; [|done].
    rewrite list_lookup_insert_ne; [done|]. by destruct Hne.
  - by rewrite list_lookup_alter_ne.
Qed.

Lemma store_disp_wf (A : Matrix) k col d :
  Matrix_wf A -> Matrix_wf (store_disp A k col d).
Proof. intros. unfold store_disp. by repeat apply Matrix_set_wf. Qed.

Lemma store_disp_shape (A : Matrix) k col d :
  rows (store_disp A k col d) = rows A /\
  columns (store_disp A k col d) = columns A.
Proof. done. Qed.

Lemma store_disp_column_at (A : Matrix) k col d :
  Matrix_wf A -> 3 * k + 2 < rows A -> col < columns A ->
  column_at (store_disp A k col d) k col = d.
Proof.
  intros Hwf Hk Hcol. destruct d as [x y z]. unfold column_at, store_disp; simpl.
  f_equal.
  - rewrite !Matrix_get_set_ne by lia.
    apply Matrix_get_set_eq; [done|lia|done].
  - rewrite Matrix_get_set_ne by lia.
    apply Matrix_get_set_eq; [by apply Matrix_set_wf|simpl; lia|done].
  - apply Matrix_get_set_eq; [by repeat apply Matrix_set_wf|simpl; lia|done].
Qed.

Lemma store_disp_column_at_other (A : Matrix) k col d k' col' :
  (k, col) <> (k', col') ->
  column_at (store_disp A k col d) k' col' = column_at A k' col'.
Proof.
  intros Hne. unfold column_at, store_disp.
  assert (k <> k' \/ col <> col') as Hor.
  { destruct (decide (k = k')); [right|by left]. congruence. }
  f_equal; rewrite !Matrix_get_set_ne; try done;
    (destruct Hor; [left; lia|by right]).
Qed.

Lemma assign_all_wf (ws : list Assignment) (A : Matrix) :
  Matrix_wf A -> Matrix_wf (assign_all A ws).
Proof.
  revert A; induction ws as [|w ws IH]; intros A Hwf; [done|].
  apply IH. by apply store_disp_wf.
Qed.

Lemma assign_all_shape (ws : list Assignment) (A : Matrix) :
  rows (assign_all A ws) = rows A /\ columns (assign_all A ws) = columns A.
Proof.
  revert A; induction ws as [|w ws IH]; intros A; [done|].
  simpl. by destruct (IH (store_disp A w.1.1 w.1.2 w.2)).
Qed.

Lemma assign_all_app (ws1 ws2 : list Assignment) (A : Matrix) :
  assign_all A (ws1 ++ ws2) = assign_all (assign_all A ws1) ws2.
Proof. apply fold_left_app. Qed.

(** A column that no assignment addresses keeps its entries. *)
Lemma assign_all_untouched (ws : list Assignment) (A : Matrix) k col :
  (k, col) ∉ assignment_key <$> ws ->
  column_at (assign_all A ws) k col = column_at A k col.
Proof.
  revert A; induction ws as [|w ws IH]; intros A Hnot; [done|].
  simpl in *. apply not_elem_of_cons in Hnot as [Hw Hws].
  rewrite IH by done. apply store_disp_column_at_other.
  intros E. apply Hw. by rewrite <- E.
Qed.

(** When no two assignments address the same column of the same point,
    every assignment that is inside the matrix is found in the result. *)
Lemma assign_all_column_at (ws : list Assignment) (A : Matrix) k col d :
  Matrix_wf A ->
  NoDup (assignment_key <$> ws) ->
  (k, col, d) ∈ ws ->
  3 * k + 2 < rows A -> col < columns A ->
  column_at (assign_all A ws) k col = d.
Proof.
  revert A; induction ws as [|w ws IH]; intros A Hwf Hnd Hin Hk Hcol;
    [by apply elem_of_nil in Hin|].
  simpl in Hnd. apply NoDup_cons in Hnd as [Hw Hnd].
  apply elem_of_cons in Hin as [<-|Hin]; simpl.
  - rewrite assign_all_untouched by done.
    by apply store_disp_column_at.
  - apply IH; try done. by apply store_disp_wf.
Qed.

End MatrixFacts.

(** *** [UInt] arithmetic where nothing wraps around *)

Lemma UInt_wrap_small z : UInt_fits z -> UInt_wrap z = Z.to_nat z.
Proof. intros Hz. unfold UInt_wrap. by rewrite Z.mod_small. Qed.

Lemma UInt_add_small a b :
  UInt_fits (Z.of_nat a + Z.of_nat b) -> UInt_add a b = a + b.
Proof. intros Hz. unfold UInt_add. rewrite UInt_wrap_small by done. lia. Qed.

Lemma UInt_mul_small a b :
  UInt_fits (Z.of_nat a * Z.of_nat b) -> UInt_mul a b = a * b.
Proof. intros Hz. unfold UInt_mul. rewrite UInt_wrap_small by done. lia. Qed.

Lemma UInt_sub_small a b :
  b <= a -> UInt_fits (Z.of_nat a) -> UInt_sub a b = a - b.
Proof.
  intros Hle Hz. unfold UInt_sub. rewrite UInt_wrap_small; [lia|].
  unfold UInt_fits in *. lia.
Qed.

(** When [(maxDegree+1)*(maxDegree+1)] is a value of [UInt], the degree
    passed to [CnmSnm], the column count and the column numbers of the
    loops are the numbers themselves. *)
Lemma UInt_columns maxDegree :
  UInt_fits ((Z.of_nat maxDegree + 1) * (Z.of_nat maxDegree + 1)) ->
  UInt_add maxDegree 1 = maxDegree + 1 /\
  UInt_mul (UInt_add maxDegree 1) (UInt_add maxDegree 1)
  = (maxDegree + 1) * (maxDegree + 1) /\
  (forall n, n <= maxDegree -> UInt_mul n n = n * n) /\
  (forall n m, 1 <= m -> m <= n -> n <= maxDegree ->
     UInt_sub (UInt_add (UInt_mul n n) (UInt_mul 2 m)) 1 = n * n + 2 * m - 1 /\
     UInt_add (UInt_mul n n) (UInt_mul 2 m) = n * n + 2 * m).
Proof.
  intros Hfit.
  assert (Hadd : UInt_add maxDegree 1 = maxDegree + 1).
  { apply UInt_add_small. unfold UInt_fits in *. nia. }
  assert (Hsq : forall n, n <= maxDegree -> UInt_mul n n = n * n).
  { intros n Hn. apply UInt_mul_small. unfold UInt_fits in *. nia. }
  split; [done|]. split; [|split; [done|]].
  - rewrite Hadd. apply UInt_mul_small. unfold UInt_fits in *. nia.
  - intros n m Hm Hmn Hn. rewrite (Hsq n Hn).
    assert (Hm2 : UInt_mul 2 m = 2 * m).
    { apply UInt_mul_small. unfold UInt_fits in *. nia. }
    assert (Hsum : UInt_add (n * n) (2 * m) = n * n + 2 * m).
    { apply UInt_add_small. unfold UInt_fits in *. nia. }
    rewrite Hm2, Hsum. split; [|done].
    apply UInt_sub_small; [lia|]. unfold UInt_fits in *. nia.
Qed.

(** *** Columns and coefficients *)

Lemma coefficient_column_inj n j n' j' :
  j <= 2 * n -> j' <= 2 * n' ->
  coefficient_column n j = coefficient_column n' j' -> n = n' /\ j = j'.
Proof.
  unfold coefficient_column. intros Hj Hj' E.
  assert (n = n') as -> by (destruct (Nat.lt_trichotomy n n') as [?|[?|?]]; nia).
  lia.
Qed.

Lemma coefficient_column_bound n j maxDegree :
  n <= maxDegree -> j <= 2 * n ->
  coefficient_column n j < (maxDegree + 1) * (maxDegree + 1).
Proof. unfold coefficient_column. nia. Qed.

Lemma coefficient_column_onto c maxDegree :
  c < (maxDegree + 1) * (maxDegree + 1) ->
  exists n j, n <= maxDegree /\ j <= 2 * n /\ c = coefficient_column n j.
Proof.
  intros Hc. unfold coefficient_column.
  pose proof (Nat.sqrt_specif c) as [Hlo Hhi].
  exists (Nat.sqrt c), (c - Nat.sqrt c * Nat.sqrt c).
  split; [nia|]. split; [nia|lia].
Qed.

(** Where a column is among the assigned ones. *)
Lemma elem_of_assigned_columns c maxDegree :
  c ∈ assigned_columns maxDegree <->
  (exists n, n <= maxDegree /\ c = coefficient_column n 0) \/
  (exists n m, 1 <= m /\ m <= n /\ n <= maxDegree /\
     (c = coefficient_column n (2 * m - 1) \/ c = coefficient_column n (2 * m))).
Proof.
  unfold assigned_columns, coefficient_column. rewrite elem_of_app. split.
  - intros [Hin|Hin].
    + apply list_elem_of_fmap in Hin as (n & -> & Hn%elem_of_seq).
      left. exists n. split; lia.
    + apply list_elem_of_bind in Hin as (m & Hin & Hm%elem_of_seq).
      apply list_elem_of_bind in Hin as (n & Hin & Hn%elem_of_seq).
      right. exists n, m.
      apply elem_of_cons in Hin as [->|Hin%list_elem_of_singleton];
        [|subst c]; (split; [lia|]; split; [lia|]; split; [lia|]); [left|right]; lia.
  - intros [(n & Hn & ->)|(n & m & Hm & Hmn & Hn & Hc)].
    + left. apply list_elem_of_fmap. exists n. split; [lia|].
      apply elem_of_seq; lia.
    + right. apply list_elem_of_bind. exists m. split; [|apply elem_of_seq; lia].
      apply list_elem_of_bind. exists n. split; [|apply elem_of_seq; lia].
      destruct Hc as [->| ->].
      * replace (n * n + (2 * m - 1)) with (n * n + 2 * m - 1) by lia.
        apply list_elem_of_here.
      * apply list_elem_of_further, list_elem_of_here.
Qed.

(** No column is assigned twice. *)
Lemma assigned_columns_NoDup maxDegree : NoDup (assigned_columns maxDegree).
Proof.
  unfold assigned_columns. apply NoDup_app. split; [|split].
  - apply NoDup_fmap_2_strong; [|apply NoDup_seq].
    intros x y _ _ E.
    by destruct (coefficient_column_inj x 0 y 0 ltac:(lia) ltac:(lia) ltac:(by unfold coefficient_column; lia)).
  - intros c Hc1 Hc2.
    apply list_elem_of_fmap in Hc1 as (n & -> & Hn%elem_of_seq).
    apply list_elem_of_bind in Hc2 as (m & Hin & Hm%elem_of_seq).
    apply list_elem_of_bind in Hin as (n' & Hin & Hn'%elem_of_seq).
    apply elem_of_cons in Hin as [E|E%list_elem_of_singleton].
    + destruct (coefficient_column_inj n 0 n' (2 * m - 1)) as [_ ?];
        unfold coefficient_column; lia.
    + destruct (coefficient_column_inj n 0 n' (2 * m)) as [_ ?];
        unfold coefficient_column; lia.
  - apply NoDup_bind; [| |apply NoDup_seq].
    + intros m1 m2 c Hm1%elem_of_seq Hm2%elem_of_seq Hc1 Hc2.
      apply list_elem_of_bind in Hc1 as (n1 & Hc1 & Hn1%elem_of_seq).
      apply list_elem_of_bind in Hc2 as (n2 & Hc2 & Hn2%elem_of_seq).
      apply elem_of_cons in Hc1 as [E1|E1%list_elem_of_singleton];
      apply elem_of_cons in Hc2 as [E2|E2%list_elem_of_singleton]; subst c.
      * destruct (coefficient_column_inj n1 (2 * m1 - 1) n2 (2 * m2 - 1));
          unfold coefficient_column; lia.
      * destruct (coefficient_column_inj n1 (2 * m1 - 1) n2 (2 * m2));
          unfold coefficient_column; lia.
      * destruct (coefficient_column_inj n1 (2 * m1) n2 (2 * m2 - 1));
          unfold coefficient_column; lia.
      * destruct (coefficient_column_inj n1 (2 * m1) n2 (2 * m2));
          unfold coefficient_column; lia.
    + intros m Hm%elem_of_seq. apply NoDup_bind; [| |apply NoDup_seq].
      * intros n1 n2 c Hn1%elem_of_seq Hn2%elem_of_seq Hc1 Hc2.
        apply elem_of_cons in Hc1 as [E1|E1%list_elem_of_singleton];
        apply elem_of_cons in Hc2 as [E2|E2%list_elem_of_singleton]; subst c.
        -- destruct (coefficient_column_inj n1 (2 * m - 1) n2 (2 * m - 1));
             unfold coefficient_column; lia.
        -- destruct (coefficient_column_inj n1 (2 * m - 1) n2 (2 * m));
             unfold coefficient_column; lia.
        -- destruct (coefficient_column_inj n1 (2 * m) n2 (2 * m - 1));
             unfold coefficient_column; lia.
        -- destruct (coefficient_column_inj n1 (2 * m) n2 (2 * m));
             unfold coefficient_column; lia.
      * intros n Hn%elem_of_seq. apply NoDup_cons. split.
        -- rewrite list_elem_of_singleton. lia.
        -- apply NoDup_singleton.
Qed.

(** *** The loops of [deformationMatrix] *)

Section DeformationMatrixFacts.
Context `{DoubleOps}.
Context {SphericalHarmonics : Type}.
Context `{!@SphericalHarmonicsOps _ SphericalHarmonics}.

(** A loop whose body makes the assignments [w x] makes them all. *)
Lemma for_each_assignments {T} (body : Matrix -> T -> result Matrix)
    (w : T -> list Assignment) (l : list T) (A : Matrix) :
  (forall A x, x ∈ l -> body A x = Ok (assign_all A (w x))) ->
  for_each body A l = Ok (assign_all A (l ≫= w)).
Proof.
  revert A; induction l as [|x l IH]; intros A Hbody; [done|].
  simpl. rewrite Hbody by apply list_elem_of_here. simpl.
  rewrite IH by (intros; apply Hbody; by apply list_elem_of_further).
  change ((x :: l) ≫= w) with (w x ++ (l ≫= w)).
  by rewrite assign_all_app.
Qed.

Lemma bind_singleton_fmap {A B} (f : A -> B) (l : list A) :
  l ≫= (fun x => [f x]) = f <$> l.
Proof. induction l as [|x l IH]; [done|]. csimpl. by rewrite IH. Qed.

Lemma fmap_bind_list {A B C} (f : B -> C) (g : A -> list B) (l : list A) :
  f <$> (l ≫= g) = l ≫= (fun x => f <$> g x).
Proof. induction l as [|x l IH]; [done|]. csimpl. by rewrite fmap_app, IH. Qed.

Lemma list_fmap_ext_in {A B} (f g : A -> B) (l : list A) :
  (forall x, x ∈ l -> f x = g x) -> f <$> l = g <$> l.
Proof.
  intros Hfg. apply list_fmap_ext. intros i x Hx. apply Hfg.
  by eapply list_elem_of_lookup_2.
Qed.

Lemma list_bind_ext_in {A B} (f g : A -> list B) (l : list A) :
  (forall x, x ∈ l -> f x = g x) -> l ≫= f = l ≫= g.
Proof.
  induction l as [|x l IH]; intros Hfg; [done|]. csimpl.
  rewrite (Hfg x) by apply list_elem_of_here.
  rewrite IH; [done|]. intros y Hy. apply Hfg. by apply list_elem_of_further.
Qed.

Variable (point : list Vector3d) (gravity_ : list Double) (hn ln : Vector).
Variable (GM R : Double) (maxDegree : nat).

Local Abbreviation all_assignments :=
  (matrix_assignments point gravity_ hn ln GM R maxDegree).

(** What the pass for the point [k] does to the matrix. *)
Lemma point_body_writes (A : Matrix) k p g :
  point !! k = Some p -> gravity_ !! k = Some g ->
  point_body point gravity_ hn ln GM R maxDegree A k
  = Ok (assign_all A (point_writes hn ln GM R maxDegree k p g)).
Proof.
  intros Hp Hg. unfold point_body, at_. rewrite Hp; simpl.
  replace (point_writes hn ln GM R maxDegree k p g) with
    (let up := normalize p in
     let CS := CnmSnm (Vector3d_scale (d_of_Z 1 / R)%D p) (UInt_add maxDegree 1) in
     ((fun n => (k, UInt_mul n n, disp_order0 hn ln GM R up CS.1 CS.2 g n)
                : Assignment)
        <$> seq 0 (maxDegree + 1)) ++
     (seq 1 maxDegree ≫= fun m =>
      seq m (maxDegree + 1 - m) ≫= fun n =>
        [(k, UInt_sub (UInt_add (UInt_mul n n) (UInt_mul 2 m)) 1,
          disp_cos hn ln GM R up CS.1 CS.2 g n m);
         (k, UInt_add (UInt_mul n n) (UInt_mul 2 m),
          disp_sin hn ln GM R up CS.1 CS.2 g n m)])).
  2:{ unfold point_writes, coefficient_writes. cbv zeta.
      rewrite fmap_app, <- list_fmap_compose. f_equal.
      rewrite fmap_bind_list. apply list_bind_ext; [|done]. intros m.
      by rewrite fmap_bind_list. }
  cbv zeta. destruct (CnmSnm _ _) as [Cnm Snm]; simpl.
  rewrite (for_each_assignments _
             (fun n => [(k, UInt_mul n n,
                         disp_order0 hn ln GM R (normalize p) Cnm Snm g n)])).
  2:{ intros A' n _. unfold order0_body, at_. by rewrite Hg. }
  rewrite bind_singleton_fmap, assign_all_app. unfold Ok at 1. cbn [rbind].
  apply for_each_assignments. intros A' m _.
  apply for_each_assignments. intros A'' n _.
  unfold orders_body, at_. by rewrite Hg.
Qed.

(** The matrix that [deformationMatrix] returns: the new matrix with all
    the assignments made. *)
Lemma deformationMatrix_writes :
  length point <= length gravity_ ->
  TidesBase_deformationMatrix point gravity_ hn ln GM R maxDegree
  = Ok (assign_all
          (Matrix_new (3 * length point)
             (UInt_mul (UInt_add maxDegree 1) (UInt_add maxDegree 1)))
          (matrix_writes point gravity_ hn ln GM R maxDegree)).
Proof.
  intros Hlen. unfold TidesBase_deformationMatrix, matrix_writes.
  apply for_each_assignments. intros A k Hk%elem_of_seq.
  destruct (lookup_lt_is_Some_2 point k) as [p Hp]; [lia|].
  destruct (lookup_lt_is_Some_2 gravity_ k) as [g Hg]; [lia|].
  rewrite Hp, Hg. by apply point_body_writes.
Qed.

(** Where nothing wraps around, the assignments are those at the columns
    [n*n], [n*n+2*m-1] and [n*n+2*m]. *)
Lemma point_writes_no_wrap k p g :
  UInt_fits ((Z.of_nat maxDegree + 1) * (Z.of_nat maxDegree + 1)) ->
  point_writes hn ln GM R maxDegree k p g
  = point_assignments hn ln GM R maxDegree k p g.
Proof.
  intros (Hadd & _ & Hsq & Hcols)%UInt_columns.
  unfold point_writes, coefficient_writes, point_assignments. cbv zeta.
  rewrite Hadd, fmap_app, <- list_fmap_compose. f_equal.
  - apply list_fmap_ext_in. intros n Hn%elem_of_seq. simpl.
    by rewrite Hsq by lia.
  - rewrite fmap_bind_list. apply list_bind_ext_in. intros m Hm%elem_of_seq.
    rewrite fmap_bind_list. apply list_bind_ext_in. intros n Hn%elem_of_seq.
    destruct (Hcols n m) as [-> ->]; [lia..|]. done.
Qed.

Lemma deformationMatrix_assignments :
  UInt_fits ((Z.of_nat maxDegree + 1) * (Z.of_nat maxDegree + 1)) ->
  length point <= length gravity_ ->
  TidesBase_deformationMatrix point gravity_ hn ln GM R maxDegree
  = Ok (assign_all
          (Matrix_new (3 * length point) ((maxDegree + 1) * (maxDegree + 1)))
          all_assignments).
Proof.
  intros Hfit Hlen. rewrite deformationMatrix_writes by done.
  destruct (UInt_columns maxDegree Hfit) as (_ & -> & _).
  do 2 f_equal. unfold matrix_writes, matrix_assignments.
  apply list_bind_ext; [|done]. intros k.
  destruct (point !! k), (gravity_ !! k); try done.
  by apply point_writes_no_wrap.
Qed.

Lemma point_assignments_keys k p g :
  assignment_key <$> point_assignments hn ln GM R maxDegree k p g
  = (fun c => (k, c)) <$> assigned_columns maxDegree.
Proof.
  unfold point_assignments, assigned_columns.
  rewrite !fmap_app, <- !list_fmap_compose. f_equal.
  rewrite !fmap_bind_list. apply list_bind_ext; [|done]. intros m.
  rewrite !fmap_bind_list. apply list_bind_ext; [|done]. intros n. done.
Qed.

Lemma all_assignments_NoDup : NoDup (assignment_key <$> all_assignments).
Proof using Type.
  unfold matrix_assignments.
  assert (Hkeys : forall l,
            assignment_key <$> (l ≫= fun k =>
              match point !! k, gravity_ !! k with
              | Some p, Some g => point_assignments hn ln GM R maxDegree k p g
              | _, _ => []
              end)
            = l ≫= fun k =>
              match point !! k, gravity_ !! k with
              | Some p, Some g => (fun c => (k, c)) <$> assigned_columns maxDegree
              | _, _ => []
              end).
  { induction l as [|k l IH]; [done|]. csimpl. rewrite fmap_app, IH. f_equal.
    destruct (point !! k), (gravity_ !! k); try done.
    apply point_assignments_keys. }
  rewrite Hkeys. apply NoDup_bind; [| |apply NoDup_seq].
  - intros k1 k2 [k c] _ _ H1 H2.
    destruct (point !! k1), (gravity_ !! k1); try by apply elem_of_nil in H1.
    destruct (point !! k2), (gravity_ !! k2); try by apply elem_of_nil in H2.
    apply list_elem_of_fmap in H1 as (? & [= -> _] & _).
    apply list_elem_of_fmap in H2 as (? & [= -> _] & _). done.
  - intros k _. destruct (point !! k), (gravity_ !! k); try apply NoDup_nil_2.
    apply NoDup_fmap_2; [|apply assigned_columns_NoDup].
    by intros c1 c2 [= ->].
Qed.

Lemma all_assignments_order0 k p g n :
  point !! k = Some p -> gravity_ !! k = Some g -> n <= maxDegree ->
  let up := normalize p in
  let CS := CnmSnm (Vector3d_scale (d_of_Z 1 / R)%D p) (maxDegree + 1) in
  (k, n * n, disp_order0 hn ln GM R up CS.1 CS.2 g n) ∈ all_assignments.
Proof using Type.
  intros Hp Hg Hn up CS. unfold matrix_assignments.
  apply list_elem_of_bind. exists k. split.
  - rewrite Hp, Hg. unfold point_assignments. apply elem_of_app. left.
    apply list_elem_of_fmap. exists n. split; [done|]. apply elem_of_seq. lia.
  - apply elem_of_seq. apply lookup_lt_Some in Hp. lia.
Qed.

Lemma all_assignments_orders k p g n m :
  point !! k = Some p -> gravity_ !! k = Some g ->
  1 <= m -> m <= n -> n <= maxDegree ->
  let up := normalize p in
  let CS := CnmSnm (Vector3d_scale (d_of_Z 1 / R)%D p) (maxDegree + 1) in
  (k, n * n + 2 * m - 1, disp_cos hn ln GM R up CS.1 CS.2 g n m) ∈ all_assignments /\
  (k, n * n + 2 * m, disp_sin hn ln GM R up CS.1 CS.2 g n m) ∈ all_assignments.
Proof using Type.
  intros Hp Hg Hm Hmn Hn up CS. unfold matrix_assignments.
  split; apply list_elem_of_bind; exists k;
    (split; [|apply elem_of_seq; apply lookup_lt_Some in Hp; lia]);
    rewrite Hp, Hg; unfold point_assignments; apply elem_of_app; right;
    (apply list_elem_of_bind; exists m; split; [|apply elem_of_seq; lia]);
    (apply list_elem_of_bind; exists n; split; [|apply elem_of_seq; lia]).
  - apply list_elem_of_here.
  - apply list_elem_of_further, list_elem_of_here.
Qed.

(** C8. Given one gravity value for every point and a maxDegree for which
    (maxDegree+1)^2 is a value of [UInt] (it is below 2^64), [deformationMatrix]
    returns a matrix with 3K rows and (maxDegree+1)^2 columns (K the number
    of points), stored with exactly that shape.  For every point k and every
    degree n <= maxDegree the three rows of the point hold, in column n^2,
    the displacement of the coefficient of order 0 and, for every order
    1 <= m <= n, in column n^2+2m-1 the displacement of the cosine
    coefficient and in column n^2+2m that of the sine coefficient.  These
    columns are inside the matrix, different coefficients have different
    columns, and every column of the matrix is the column of a coefficient.
    ([hn(n)], [ln(n)] and [Cnm], [Snm] are read without a range check, as in
    the C++ code.) *)
Theorem deformationMatrix_shape_and_columns :
  length point <= length gravity_ ->
  UInt_fits ((Z.of_nat maxDegree + 1) * (Z.of_nat maxDegree + 1)) ->
  exists A,
    TidesBase_deformationMatrix point gravity_ hn ln GM R maxDegree = Ok A /\
    rows A = 3 * length point /\
    columns A = (maxDegree + 1) * (maxDegree + 1) /\
    Matrix_wf A /\
    (forall k p g n,
       point !! k = Some p -> gravity_ !! k = Some g -> n <= maxDegree ->
       let up := normalize p in
       let CS := CnmSnm (Vector3d_scale (d_of_Z 1 / R)%D p) (maxDegree + 1) in
       column_at A k (n * n) = disp_order0 hn ln GM R up CS.1 CS.2 g n /\
       forall m, 1 <= m -> m <= n ->
         column_at A k (n * n + 2 * m - 1)
           = disp_cos hn ln GM R up CS.1 CS.2 g n m /\
         column_at A k (n * n + 2 * m)
           = disp_sin hn ln GM R up CS.1 CS.2 g n m) /\
    (forall n j, n <= maxDegree -> j <= 2 * n ->
       coefficient_column n j < columns A) /\
    (forall n j n' j', j <= 2 * n -> j' <= 2 * n' ->
       coefficient_column n j = coefficient_column n' j' -> n = n' /\ j = j') /\
    (forall c, c < columns A ->
       exists n j, n <= maxDegree /\ j <= 2 * n /\ c = coefficient_column n j).
Proof using Type.
  intros Hlen Hfit. eexists. split; [by apply deformationMatrix_assignments|].
  set (A0 := Matrix_new _ _).
  pose proof (Matrix_new_wf (3 * length point)
                ((maxDegree + 1) * (maxDegree + 1))) as Hwf0. fold A0 in Hwf0.
  destruct (assign_all_shape all_assignments A0) as [Hrows Hcols].
  split; [exact Hrows|]. split; [exact Hcols|].
  split; [by apply assign_all_wf|]. split; [|split; [|split]].
  - intros k p g n Hp Hg Hn up CS.
    assert (Hk : 3 * k + 2 < rows A0)
      by (apply lookup_lt_Some in Hp; simpl; lia).
    split.
    + apply assign_all_column_at; try done.
      * apply all_assignments_NoDup.
      * by apply all_assignments_order0.
      * pose proof (coefficient_column_bound n 0 maxDegree Hn ltac:(lia)) as Hb.
        unfold coefficient_column in Hb. simpl. lia.
    + intros m Hm Hmn.
      destruct (all_assignments_orders k p g n m Hp Hg Hm Hmn Hn) as [Hcos Hsin].
      split; apply assign_all_column_at; try done;
        try apply all_assignments_NoDup.
      * pose proof (coefficient_column_bound n (2 * m - 1) maxDegree Hn
                      ltac:(lia)) as Hb.
        unfold coefficient_column in Hb. simpl. lia.
      * pose proof (coefficient_column_bound n (2 * m) maxDegree Hn
                      ltac:(lia)) as Hb.
        unfold coefficient_column in Hb. simpl. lia.
  - intros n j Hn Hj. rewrite Hcols. by apply coefficient_column_bound.
  - apply coefficient_column_inj.
  - intros c Hc. rewrite Hcols in Hc. by apply coefficient_column_onto.
Qed.

End DeformationMatrixFacts.

(** ** Deformation of many points at many times *)

Section DisplacementFacts.
Context `{DoubleOps}.

Lemma map2d_length {T} (f : nat -> nat -> T -> T) d :
  length (map2d f d) = length d.
Proof. unfold map2d. by rewrite length_imap. Qed.

Lemma map2d_lookup {T} (f : nat -> nat -> T -> T) d k :
  map2d f d !! k = imap (f k) <$> d !! k.
Proof. unfold map2d. by rewrite list_lookup_imap. Qed.

Lemma map2d_ext {T} (f g : nat -> nat -> T -> T) d :
  (forall k i v, f k i v = g k i v) -> map2d f d = map2d g d.
Proof. intros E. apply imap_ext. intros k row _. apply imap_ext. auto. Qed.

Lemma map2d_map2d {T} (f g : nat -> nat -> T -> T) d :
  map2d g (map2d f d) = map2d (fun k i v => g k i (f k i v)) d.
Proof.
  apply list_eq. intros k. rewrite !map2d_lookup.
  destruct (d !! k) as [row|]; simpl; [|done]. f_equal.
  apply list_eq. intros i. rewrite !list_lookup_imap.
  by destruct (row !! i).
Qed.

(** The loop over the points, for one epoch. *)
Lemma add_to_disp_loop (Ax : Vector) (i : nat) (disp : list (list Vector3d)) j :
  j <= length disp ->
  (forall k row, k < j -> disp !! k = Some row -> i < length row) ->
  for_each (add_to_disp Ax i) disp (seq 0 j)
  = Ok (add_displacement_at j i Ax disp).
Proof.
  induction j as [|j IH]; intros Hj Hwide.
  - simpl. unfold Ok. f_equal. unfold add_displacement_at, map2d.
    apply list_eq. intros k. rewrite list_lookup_imap.
    destruct (disp !! k) as [row|]; simpl; [|done]. f_equal.
    apply list_eq. intros c. rewrite list_lookup_imap. by destruct (row !! c).
  - rewrite seq_S, for_each_app. rewrite IH;
      [|lia|intros k row ? ?; apply (Hwide k row); [lia|done]].
    simpl.
    destruct (lookup_lt_is_Some_2 disp j) as [row Hrow]; [lia|].
    destruct (lookup_lt_is_Some_2 row i) as [v Hv]; [apply (Hwide j row); [lia|done]|].
    unfold add_to_disp, at_, add_displacement_at.
    rewrite map2d_lookup, Hrow; simpl.
    rewrite list_lookup_imap, Hv; simpl.
    rewrite Nat.ltb_irrefl; simpl. unfold Ok. f_equal.
    apply list_eq. intros k. rewrite map2d_lookup.
    destruct (decide (k = j)) as [->|Hk].
    + rewrite list_lookup_insert_eq by (rewrite map2d_length; lia).
      rewrite Hrow; simpl. f_equal.
      apply list_eq. intros c. rewrite list_lookup_imap.
      destruct (decide (c = i)) as [->|Hc].
      * rewrite list_lookup_insert_eq
          by (rewrite length_imap; by eapply lookup_lt_Some).
        rewrite Hv; simpl. rewrite (proj2 (Nat.ltb_lt j (Datatypes.S j))) by lia.
        by rewrite Nat.eqb_refl.
      * rewrite list_lookup_insert_ne by done. rewrite list_lookup_imap.
        destruct (row !! c); simpl; [|done].
        rewrite (proj2 (Nat.eqb_neq c i)) by done.
        by rewrite andb_false_r.
    + rewrite list_lookup_insert_ne by done. rewrite map2d_lookup.
      destruct (disp !! k) as [rowk|]; simpl; [|done]. f_equal.
      apply imap_ext. intros c v' _.
      replace (k <? Datatypes.S j) with (k <? j); [done|].
      destruct (Nat.ltb_spec k j), (Nat.ltb_spec k (Datatypes.S j)); try done; lia.
Qed.

End DisplacementFacts.

Section BatchFacts.
Context `{DoubleOps}.
Context {Time Rotary3d EarthRotationPtr EphemeridesPtr SphericalHarmonics : Type}.
Context `{!@SphericalHarmonicsOps _ SphericalHarmonics}.
Local Abbreviation Harmonics :=
  (Time -> Rotary3d -> EarthRotationPtr -> EphemeridesPtr ->
   nat -> nat -> Double -> Double -> result SphericalHarmonics).
Local Abbreviation Component :=
  (@TidesBase _ Time Rotary3d EarthRotationPtr EphemeridesPtr SphericalHarmonics).
Variable (time : list Time) (point : list Vector3d) (rotEarth : list Rotary3d).
Variable (rotation : EarthRotationPtr) (ephemerides : EphemeridesPtr).
Variable (gravity_ : list Double) (hn ln : Vector).

Lemma add_displacements_0 K Ax (disp : list (list Vector3d)) :
  add_displacements K 0 Ax disp = disp.
Proof.
  unfold add_displacements. apply list_eq. intros k. rewrite map2d_lookup.
  destruct (disp !! k) as [row|]; simpl; [|done]. f_equal.
  apply list_eq. intros c. rewrite list_lookup_imap.
  destruct (row !! c); simpl; [|done]. by rewrite andb_false_r.
Qed.

Lemma add_displacements_length K n Ax (disp : list (list Vector3d)) :
  length (add_displacements K n Ax disp) = length disp.
Proof. apply map2d_length. Qed.

Lemma add_displacements_row_length K n Ax (disp : list (list Vector3d)) k row' :
  add_displacements K n Ax disp !! k = Some row' ->
  exists row, disp !! k = Some row /\ length row' = length row.
Proof.
  unfold add_displacements. rewrite map2d_lookup.
  destruct (disp !! k) as [row|]; simpl; [|done].
  intros [= <-]. exists row. by rewrite length_imap.
Qed.

(** The loop over the epochs. *)
Lemma epoch_loop (sh : Harmonics) (A : Matrix) (Ax : nat -> Vector)
    (disp : list (list Vector3d)) n :
  (forall i, i < n ->
     epoch_Ax sh time rotEarth rotation ephemerides A i = Ok (Ax i)) ->
  length point <= length disp ->
  (forall k row, k < length point -> disp !! k = Some row -> n <= length row) ->
  for_each (epoch_body sh time point rotEarth rotation ephemerides A) disp (seq 0 n)
  = Ok (add_displacements (length point) n Ax disp).
Proof.
  induction n as [|n IH]; intros HAx Hlen Hwide.
  - simpl. by rewrite add_displacements_0.
  - rewrite seq_S, for_each_app. rewrite IH;
      [|intros; apply HAx; lia|done
       |intros k row Hk Hrow; specialize (Hwide k row Hk Hrow); lia].
    simpl. unfold epoch_body. rewrite HAx by lia. simpl.
    rewrite add_to_disp_loop.
    + simpl. unfold Ok. f_equal. unfold add_displacement_at, add_displacements.
      rewrite map2d_map2d. apply map2d_ext. intros k c v.
      destruct (k <? length point); simpl; [|done].
      destruct (Nat.eqb_spec c n) as [->|Hc].
      * rewrite Nat.ltb_irrefl. by rewrite (proj2 (Nat.ltb_lt n (Datatypes.S n))) by lia.
      * destruct (Nat.ltb_spec c n), (Nat.ltb_spec c (Datatypes.S n)); try done; lia.
    + by rewrite add_displacements_length.
    + intros k row' Hk Hrow'.
      apply add_displacements_row_length in Hrow' as (row & Hrow & ->).
      specialize (Hwide k row Hk Hrow). lia.
Qed.

(** One component that inherits the method of [TidesBase]. *)
Lemma TidesBase_deformation_batch_adds (sh : Harmonics) (A : Matrix)
    (Ax : nat -> Vector) (disp : list (list Vector3d)) :
  length time <> 0 -> length point <> 0 ->
  batch_matrix sh time point rotEarth rotation ephemerides gravity_ hn ln = Ok A ->
  (forall i, i < length time ->
     epoch_Ax sh time rotEarth rotation ephemerides A i = Ok (Ax i)) ->
  length point <= length disp ->
  (forall k row, k < length point -> disp !! k = Some row ->
                 length time <= length row) ->
  TidesBase_deformation_batch sh time point rotEarth rotation ephemerides
    gravity_ hn ln disp
  = Ok (add_displacements (length point) (length time) Ax disp).
Proof.
  intros Ht Hp HA HAx Hlen Hwide. unfold TidesBase_deformation_batch.
  rewrite (proj2 (Nat.eqb_neq _ 0) Ht), (proj2 (Nat.eqb_neq _ 0) Hp). simpl.
  rewrite HA. simpl. by apply epoch_loop.
Qed.

Lemma TidesBase_deformation_batch_empty (sh : Harmonics)
    (disp : list (list Vector3d)) :
  length time = 0 \/ length point = 0 ->
  TidesBase_deformation_batch sh time point rotEarth rotation ephemerides
    gravity_ hn ln disp = Ok disp.
Proof.
  intros Hempty. unfold TidesBase_deformation_batch.
  replace ((length time =? 0) || (length point =? 0)) with true; [done|].
  symmetry. apply orb_true_iff. by rewrite !Nat.eqb_eq.
Qed.

(** C10. The batch deformation of [TidesBase] returns [disp] unchanged when
    the list of times or the list of points is empty.  Otherwise (the
    matrix is built, every product [A * x] is formed, and [disp] has a row
    for every point and an entry for every epoch) it returns [disp] with the
    three values of [Ax] of point k and epoch i added to what the entry
    (k, i) held before, and every other entry as it was.  The aggregator
    hands the array from one component to the next, so that the components
    add up in configuration order on top of the contents that were there. *)
Theorem deformation_batch_accumulates (disp : list (list Vector3d)) :
  (forall sh : Harmonics,
     length time = 0 \/ length point = 0 ->
     TidesBase_deformation_batch sh time point rotEarth rotation ephemerides
       gravity_ hn ln disp = Ok disp) /\
  (forall (sh : Harmonics) A Ax,
     length time <> 0 -> length point <> 0 ->
     batch_matrix sh time point rotEarth rotation ephemerides gravity_ hn ln
       = Ok A ->
     (forall i, i < length time ->
        epoch_Ax sh time rotEarth rotation ephemerides A i = Ok (Ax i)) ->
     length point <= length disp ->
     (forall k row, k < length point -> disp !! k = Some row ->
                    length time <= length row) ->
     TidesBase_deformation_batch sh time point rotEarth rotation ephemerides
       gravity_ hn ln disp
     = Ok (map2d (fun k i v =>
                    if (k <? length point) && (i <? length time)
                    then mkVector3d (vx v + Vector_get (Ax i) (3 * k + 0))%D
                                    (vy v + Vector_get (Ax i) (3 * k + 1))%D
                                    (vz v + Vector_get (Ax i) (3 * k + 2))%D
                    else v)
                 disp)) /\
  (forall (c : Component) (cs : list Component),
     Tides_deformation_batch (c :: cs) time point rotEarth rotation ephemerides
       gravity_ hn ln disp
     = (do d <- deformation_batch c time point rotEarth rotation ephemerides
                  gravity_ hn ln disp;
        Tides_deformation_batch cs time point rotEarth rotation ephemerides
          gravity_ hn ln d)) /\
  (forall shs : list Harmonics,
     length time = 0 \/ length point = 0 ->
     Tides_deformation_batch (TidesBase_inherit <$> shs) time point rotEarth
       rotation ephemerides gravity_ hn ln disp = Ok disp) /\
  (forall (shs : list Harmonics) (products : list (Matrix * (nat -> Vector))),
     length time <> 0 -> length point <> 0 ->
     Forall2 (fun sh AAx =>
                batch_matrix sh time point rotEarth rotation ephemerides
                  gravity_ hn ln = Ok AAx.1 /\
                forall i, i < length time ->
                  epoch_Ax sh time rotEarth rotation ephemerides AAx.1 i
                  = Ok (AAx.2 i))
             shs products ->
     length point <= length disp ->
     (forall k row, k < length point -> disp !! k = Some row ->
                    length time <= length row) ->
     Tides_deformation_batch (TidesBase_inherit <$> shs) time point rotEarth
       rotation ephemerides gravity_ hn ln disp
     = Ok (fold_left (fun d AAx =>
                        add_displacements (length point) (length time) AAx.2 d)
                     products disp)).
Proof.
  split; [|split; [|split; [|split]]].
  - intros sh. apply TidesBase_deformation_batch_empty.
  - intros sh A Ax Ht Hp HA HAx Hlen Hwide.
    exact (TidesBase_deformation_batch_adds sh A Ax disp Ht Hp HA HAx Hlen Hwide).
  - reflexivity.
  - intros shs Hempty. unfold Tides_deformation_batch.
    induction shs as [|sh shs IH]; [done|]. simpl.
    by rewrite TidesBase_deformation_batch_empty.
  - intros shs products Ht Hp Hall. revert disp.
    induction Hall as [|sh [A Ax] shs products [HA HAx] _ IH];
      intros disp Hlen Hwide; [done|].
    unfold Tides_deformation_batch in *. simpl in *.
    rewrite (TidesBase_deformation_batch_adds sh A Ax) by done. simpl.
    apply IH.
    + by rewrite add_displacements_length.
    + intros k row' Hk Hrow'.
      apply add_displacements_row_length in Hrow' as (row & Hrow & ->).
      by apply (Hwide k).
Qed.

End BatchFacts.

(** *** One point, one epoch, degree 1, evaluated *)

Section OnePoint.
Existing Instance harmonics64.

Lemma deformationMatrix_shape_one_point :
  exists A,
    TidesBase_deformationMatrix test_point test_gravity test_hn test_ln
      3.986004415e+14%float 6378136.3%float 1 = Ok A /\
    rows A = 3 /\ columns A = 4.
Proof.
  destruct (deformationMatrix_shape_and_columns
              test_point test_gravity test_hn test_ln
              3.986004415e+14%float 6378136.3%float 1)
    as (A & HA & Hrows & Hcols & _);
    [simpl; lia | unfold UInt_fits, UInt_modulus; lia |].
  exists A. split; [exact HA|]. split; [exact Hrows|exact Hcols].
Defined.

(** With no points and maxDegree 2^32 - 1 the column count
    [(maxDegree+1)*(maxDegree+1)] wraps around to 0: the matrix returned
    has no column, whereas (maxDegree+1)^2 is 2^64. *)
Lemma deformationMatrix_columns_wrap_around :
  exists A,
    TidesBase_deformationMatrix [] [] test_hn test_ln
      3.986004415e+14%float 6378136.3%float wrapping_maxDegree = Ok A /\
    rows A = 0 /\
    columns A = 0 /\
    columns A <> (wrapping_maxDegree + 1) * (wrapping_maxDegree + 1) /\
    Z.of_nat ((wrapping_maxDegree + 1) * (wrapping_maxDegree + 1))
    = (2 ^ 64)%Z.
Proof.
  assert (HM : Z.of_nat wrapping_maxDegree = 4294967295%Z)
    by (unfold wrapping_maxDegree; by apply Z2Nat.id).
  assert (Hsq : Z.of_nat ((wrapping_maxDegree + 1) * (wrapping_maxDegree + 1))
                = (2 ^ 64)%Z).
  { rewrite Nat2Z.inj_mul, Nat2Z.inj_add, HM. reflexivity. }
  assert (H1 : Z.of_nat (UInt_add wrapping_maxDegree 1) = 4294967296%Z).
  { unfold UInt_add, UInt_wrap.
    rewrite Z2Nat.id by (by apply Z.mod_pos_bound). rewrite HM. reflexivity. }
  assert (Hcols : UInt_mul (UInt_add wrapping_maxDegree 1)
                           (UInt_add wrapping_maxDegree 1) = 0).
  { unfold UInt_mul, UInt_wrap. rewrite H1. reflexivity. }
  exists (Matrix_new 0 0).
  split; [|split; [reflexivity|split; [reflexivity|split; [|exact Hsq]]]].
  - unfold TidesBase_deformationMatrix. rewrite Hcols. reflexivity.
  - intros E. apply (f_equal Z.of_nat) in E. rewrite Hsq in E. discriminate E.
Qed.

Lemma deformation_batch_accumulates_one_point :
  TidesBase_deformation_batch test_harmonics [tt] test_point [tt] tt tt
    test_gravity test_hn test_ln test_disp
  = Ok [[mkVector3d (1 + 0.016580256765728937)%float
                    (2 + -0.00018729631392494809)%float
                    (3 + -0.0018719579594215039)%float]].
Proof.
  destruct (deformation_batch_accumulates [tt] test_point [tt] tt tt
              test_gravity test_hn test_ln test_disp) as (_ & Hadd & _).
  rewrite (Hadd test_harmonics test_matrix (fun _ => test_Ax)).
  - reflexivity.
  - discriminate.
  - discriminate.
  - vm_compute. reflexivity.
  - intros [|i] Hi; [vm_compute; reflexivity|simpl in Hi; lia].
  - simpl. lia.
  - intros [|k] row Hk Hrow; [|simpl in Hk; lia].
    injection Hrow as <-. simpl. lia.
Defined.

End OnePoint.

(** ** Further properties of the aggregator *)

Lemma accumulate_throws {T C} (add : T -> T -> T) (f : C -> result T)
    (A B : list C) (c : C) (e : Exception) :
  Forall (fun a => returns (f a)) A -> f c = Throw e ->
  forall acc, accumulate add f acc (A ++ c :: B) = Throw e.
Proof.
  intros HA Hc. induction HA as [|a A [v Hv] _ IH]; intros acc.
  - unfold accumulate; simpl. by rewrite Hc.
  - unfold accumulate in *; simpl. rewrite Hv; simpl. apply IH.
Qed.

Lemma accumulate_returns {T C} (add : T -> T -> T) (f : C -> result T)
    (l : list C) :
  forall acc v, accumulate add f acc l = Ok v -> Forall (fun c => returns (f c)) l.
Proof.
  induction l as [|c l IH]; intros acc v; [constructor|].
  unfold accumulate in *; simpl.
  destruct (f c) as [e|w] eqn:E; simpl; [discriminate|].
  intros Hl. constructor; [by exists w|]. by eapply IH.
Qed.

Section TidesMore.
Context `{DoubleOps}.
Context {Time Rotary3d EarthRotationPtr EphemeridesPtr SphericalHarmonics : Type}.
Context `{!@SphericalHarmonicsOps _ SphericalHarmonics}.
Local Abbreviation Component :=
  (@TidesBase _ Time Rotary3d EarthRotationPtr EphemeridesPtr SphericalHarmonics).
Local Abbreviation Harmonics :=
  (Time -> Rotary3d -> EarthRotationPtr -> EphemeridesPtr ->
   nat -> nat -> Double -> Double -> result SphericalHarmonics).
Variable (timeGPS : Time) (point : Vector3d) (rotEarth : Rotary3d).
Variable (rotation : EarthRotationPtr) (ephemerides : EphemeridesPtr).

(** X1. The single-point deformation of the aggregator is the zero vector
    for no components; over A ++ B it continues over B the accumulation
    that gave the result over A; when no component throws it is the sum of
    the components' displacements from left to right, starting from the
    zero vector; and with exact addition it is the sum of the results
    over A and over B. *)
Theorem Tides_deformation_sum (A B : list Component)
    (gravity_ : Double) (hn ln : Vector) :
  let u (c : Component) :=
    deformation c timeGPS point rotEarth rotation ephemerides gravity_ hn ln in
  let deformation_ tides :=
    Tides_deformation timeGPS point rotEarth rotation ephemerides tides
                      gravity_ hn ln in
  deformation_ [] = Ok (mkVector3d d_zero d_zero d_zero) /\
  deformation_ (A ++ B)
    = (do a <- deformation_ A; accumulate Vector3d_add u a B) /\
  (forall vs, Forall2 (fun c v => u c = Ok v) A vs ->
     deformation_ A = Ok (fold_left Vector3d_add vs Vector3d_default)) /\
  (add_associative -> add_zero_right ->
   deformation_ (A ++ B)
     = sum_results Vector3d_add (deformation_ A) (deformation_ B)).
Proof.
  intros u deformation_. split; [done|]. split; [apply accumulate_app|].
  split.
  - intros vs Hvs. by apply (accumulate_values Vector3d_add u).
  - intros assoc zero_r.
    apply (accumulate_app_sum Vector3d_add Vector3d_default u).
    + by apply Vector3d_add_assoc.
    + by apply Vector3d_add_default.
Qed.

(** X2. An aggregate returns only if every component returns, and it
    throws what the first throwing component throws: if the components
    before [c] return and [c] throws [e], the aggregate over
    A ++ c :: B throws [e], whatever B is.  This holds for potential,
    radialGradient, acceleration, gradient and the single-point
    deformation. *)
Theorem Tides_first_exception (A B : list Component) (c : Component)
    (e : Exception) (gravity_ : Double) (hn ln : Vector) :
  let V (c : Component) := potential c timeGPS point rotEarth rotation ephemerides in
  let dVdr (c : Component) :=
    radialGradient c timeGPS point rotEarth rotation ephemerides in
  let g (c : Component) := gravity c timeGPS point rotEarth rotation ephemerides in
  let T (c : Component) :=
    gravityGradient c timeGPS point rotEarth rotation ephemerides in
  let u (c : Component) :=
    deformation c timeGPS point rotEarth rotation ephemerides gravity_ hn ln in
  (Forall (fun a => returns (V a)) A -> V c = Throw e ->
   Tides_potential timeGPS point rotEarth rotation ephemerides (A ++ c :: B)
   = Throw e) /\
  (Forall (fun a => returns (dVdr a)) A -> dVdr c = Throw e ->
   Tides_radialGradient timeGPS point rotEarth rotation ephemerides (A ++ c :: B)
   = Throw e) /\
  (Forall (fun a => returns (g a)) A -> g c = Throw e ->
   Tides_acceleration timeGPS point rotEarth rotation ephemerides (A ++ c :: B)
   = Throw e) /\
  (Forall (fun a => returns (T a)) A -> T c = Throw e ->
   Tides_gradient timeGPS point rotEarth rotation ephemerides (A ++ c :: B)
   = Throw e) /\
  (Forall (fun a => returns (u a)) A -> u c = Throw e ->
   Tides_deformation timeGPS point rotEarth rotation ephemerides (A ++ c :: B)
     gravity_ hn ln = Throw e) /\
  (returns (Tides_potential timeGPS point rotEarth rotation ephemerides A) ->
   Forall (fun a => returns (V a)) A) /\
  (returns (Tides_radialGradient timeGPS point rotEarth rotation ephemerides A) ->
   Forall (fun a => returns (dVdr a)) A) /\
  (returns (Tides_acceleration timeGPS point rotEarth rotation ephemerides A) ->
   Forall (fun a => returns (g a)) A) /\
  (returns (Tides_gradient timeGPS point rotEarth rotation ephemerides A) ->
   Forall (fun a => returns (T a)) A) /\
  (returns (Tides_deformation timeGPS point rotEarth rotation ephemerides A
              gravity_ hn ln) ->
   Forall (fun a => returns (u a)) A).
Proof.
  intros V dVdr g T u.
  repeat split;
    try (intros HA Hc; by apply (accumulate_throws _ _ A B c e HA Hc));
    intros [v Hv].
  - by apply (accumulate_returns d_add V A d_zero v).
  - by apply (accumulate_returns d_add dVdr A d_zero v).
  - by apply (accumulate_returns Vector3d_add g A Vector3d_default v).
  - by apply (accumulate_returns Tensor3d_add T A Tensor3d_default v).
  - by apply (accumulate_returns Vector3d_add u A Vector3d_default v).
Qed.

(** X3. Over a non-empty list the spherical harmonics of the aggregator
    start from the field of the first component (not from an empty field)
    and add the fields of the others in order with [+=]; every component
    is asked with the same maxDegree, minDegree, GM and R.  For one
    component the result is that component's own result, the first
    component that throws decides what the aggregate throws, and the
    aggregate over more components continues the one over fewer. *)
Theorem Tides_sphericalHarmonics_nonempty (c0 : Component) (rest : list Component)
    (maxDegree minDegree : nat) (GM R : Double) :
  let sh (c : Component) :=
    sphericalHarmonics c timeGPS rotEarth rotation ephemerides
                       maxDegree minDegree GM R in
  let aggregate tides :=
    Tides_sphericalHarmonics timeGPS rotEarth rotation ephemerides tides
                             maxDegree minDegree GM R in
  aggregate [c0] = sh c0 /\
  (forall h0 hs, sh c0 = Ok h0 -> Forall2 (fun c h => sh c = Ok h) rest hs ->
     aggregate (c0 :: rest) = Ok (fold_left SH_add hs h0)) /\
  (forall e, sh c0 = Throw e -> aggregate (c0 :: rest) = Throw e) /\
  (forall A c B e, rest = A ++ c :: B ->
     returns (sh c0) -> Forall (fun a => returns (sh a)) A -> sh c = Throw e ->
     aggregate (c0 :: rest) = Throw e) /\
  (forall A B, rest = A ++ B ->
     aggregate (c0 :: rest)
     = (do h <- aggregate (c0 :: A); accumulate SH_add sh h B)).
Proof.
  intros sh aggregate. unfold aggregate, Tides_sphericalHarmonics.
  fold (sh c0). split; [|split; [|split; [|split]]];
    [| | | |intros A B ->; destruct (sh c0); [done|apply accumulate_app]].
  - simpl. by destruct (sh c0).
  - intros h0 hs -> Hhs. simpl.
    by apply (accumulate_values SH_add sh).
  - by intros e ->.
  - intros A c B e -> [h0 ->] HA Hc. simpl.
    by apply (accumulate_throws SH_add sh A B c e).
Qed.

(** X4. For components that implement [sphericalHarmonics] only, every
    aggregate is the left-to-right sum of the operator of
    [SphericalHarmonics] applied to each component's field, the field being
    the one [sphericalHarmonics] returns for the default maxDegree,
    minDegree, GM and R. *)
Theorem Tides_of_inherited_methods (shs : list Harmonics)
    (hs : list SphericalHarmonics) (gravity_ : Double) (hn ln : Vector) :
  Forall2 (fun sh h => sh timeGPS rotEarth rotation ephemerides
                          INFINITYDEGREE 0 DEFAULT_GM DEFAULT_R = Ok h) shs hs ->
  let tides : list Component := TidesBase_inherit <$> shs in
  Tides_potential timeGPS point rotEarth rotation ephemerides tides
  = Ok (fold_left d_add ((fun h => SH_potential h point) <$> hs) d_zero) /\
  Tides_radialGradient timeGPS point rotEarth rotation ephemerides tides
  = Ok (fold_left d_add ((fun h => SH_radialGradient h point) <$> hs) d_zero) /\
  Tides_acceleration timeGPS point rotEarth rotation ephemerides tides
  = Ok (fold_left Vector3d_add ((fun h => SH_gravity h point) <$> hs)
                  Vector3d_default) /\
  Tides_gradient timeGPS point rotEarth rotation ephemerides tides
  = Ok (fold_left Tensor3d_add ((fun h => SH_gravityGradient h point) <$> hs)
                  Tensor3d_default) /\
  Tides_deformation timeGPS point rotEarth rotation ephemerides tides
                    gravity_ hn ln
  = Ok (fold_left Vector3d_add
                  ((fun h => SH_deformation h point gravity_ hn ln) <$> hs)
                  Vector3d_default).
Proof.
  intros Hall tides. unfold tides.
  repeat split.
  - apply (accumulate_values d_add
             (fun c : Component => potential c timeGPS point rotEarth rotation ephemerides)).
    induction Hall as [|sh h shs hs Hh _ IH]; constructor; [|exact IH].
    simpl. unfold TidesBase_potential, harmonics. by rewrite Hh.
  - apply (accumulate_values d_add
             (fun c : Component => radialGradient c timeGPS point rotEarth rotation ephemerides)).
    induction Hall as [|sh h shs hs Hh _ IH]; constructor; [|exact IH].
    simpl. unfold TidesBase_radialGradient, harmonics. by rewrite Hh.
  - apply (accumulate_values Vector3d_add
             (fun c : Component => gravity c timeGPS point rotEarth rotation ephemerides)).
    induction Hall as [|sh h shs hs Hh _ IH]; constructor; [|exact IH].
    simpl. unfold TidesBase_gravity, harmonics. by rewrite Hh.
  - apply (accumulate_values Tensor3d_add
             (fun c : Component => gravityGradient c timeGPS point rotEarth rotation ephemerides)).
    induction Hall as [|sh h shs hs Hh _ IH]; constructor; [|exact IH].
    simpl. unfold TidesBase_gravityGradient, harmonics. by rewrite Hh.
  - apply (accumulate_values Vector3d_add
             (fun c : Component => deformation c timeGPS point rotEarth rotation
                                     ephemerides gravity_ hn ln)).
    induction Hall as [|sh h shs hs Hh _ IH]; constructor; [|exact IH].
    simpl. unfold TidesBase_deformation, harmonics. by rewrite Hh.
Qed.

End TidesMore.

(** ** Further properties of the Earth orientation parameters *)

(** A loop returns when its body returns on every element, in every state. *)
Lemma for_each_returns {S T} (body : S -> T -> result S) (l : list T) :
  (forall s x, x ∈ l -> returns (body s x)) ->
  forall acc, returns (for_each body acc l).
Proof.
  induction l as [|x l IH]; intros Hbody acc; [by exists acc|].
  simpl. destruct (Hbody acc x) as [s' ->]; [apply list_elem_of_here|].
  simpl. apply IH. intros s y Hy. apply Hbody. by apply list_elem_of_further.
Qed.

Section EarthRotationMore.
Context `{DoubleOps}.
Context {Time Polynomial : Type}.
Context `{!@IersOps _ Time Polynomial}.
Local Abbreviation Object := (@EarthRotationIers2010 _ Time Polynomial).

Lemma remove_leap_seconds_shape times_ E i E' :
  remove_leap_seconds times_ E i = Ok E' ->
  rows E' = rows E /\ columns E' = columns E.
Proof.
  unfold remove_leap_seconds.
  destruct (at_ times_ i) as [e|t]; simpl; [discriminate|].
  by intros [= <-].
Qed.

(** The loop over the rows of the file does not throw. *)
Lemma remove_leap_seconds_loop_returns (raw : Matrix) :
  returns (for_each
             (remove_leap_seconds
                (map (fun i => mjd2time (Matrix_get raw i 0)) (seq 0 (rows raw))))
             (Matrix_column raw 1 6) (seq 0 (rows raw))).
Proof.
  apply for_each_returns. intros E i Hi%elem_of_seq.
  unfold remove_leap_seconds, at_.
  rewrite list_lookup_fmap, lookup_seq_lt by lia. simpl. by eexists.
Qed.

Lemma stored_row_length (row : list Double) :
  length row = 7 -> length (stored_row row) = 6.
Proof.
  intros Hrow. unfold stored_row, radians_row, UT1_minus_GPS_row.
  rewrite !length_alter, length_insert, length_take, length_drop. lia.
Qed.

(** X5. Every object that the constructor returns has as many times as
    its table has rows and carries the truncatedNutation flag of the
    configuration.  It is either empty (no times, a 0 x 0 table, the default
    polynomial), or it was read from the file in a build with ERFA: then
    the table has the rows of the file and 6 columns, the polynomial has
    degree 3, the times are the first column of the file, and the table is
    stored with exactly that shape when the file has 7 values in each of
    its rows. *)
Theorem constructor_invariants (nolib : bool) (config : Config) (self : Object) :
  EarthRotationIers2010_new nolib config = Ok self ->
  length (times self) = rows (EOP self) /\
  useTruncated self = truncatedNutation config /\
  ((times self = [] /\ EOP self = Matrix_new 0 0 /\
    polynomial self = Polynomial_default) \/
   (nolib = false /\ isCreateSchema config = false /\
    exists raw,
      readFileEarthOrientationParameter (inputfileEOP config) = Some raw /\
      times self = map (fun i => mjd2time (Matrix_get raw i 0)) (seq 0 (rows raw)) /\
      rows (EOP self) = rows raw /\ columns (EOP self) = 6 /\
      polynomial self = Polynomial_init Polynomial_default 3 /\
      (Matrix_wf raw -> columns raw = 7 -> Matrix_wf (EOP self)))).
Proof.
  unfold EarthRotationIers2010_new.
  destruct (isCreateSchema config) eqn:Hschema;
    [intros [= <-]; simpl; split; [done|]; split; [done|]; by left|].
  destruct nolib; [discriminate|].
  destruct (String.eqb _ _);
    [intros [= <-]; simpl; split; [done|]; split; [done|]; by left|].
  destruct (readFileEarthOrientationParameter _) as [raw|] eqn:Hread;
    [|discriminate].
  destruct (for_each _ _ _) as [e|E] eqn:Hloop; simpl; [discriminate|].
  intros [= <-]; simpl.
  pose proof Hloop as Hshape.
  apply (for_each_invariant
           (fun E => rows E = rows raw /\ columns E = 6)) in Hshape;
    [| intros s x s' [Hr Hc] Hb; apply remove_leap_seconds_shape in Hb; lia
     | done ].
  destruct Hshape as [Hrows Hcols].
  split; [by rewrite length_map, length_seq|]. split; [done|].
  right. split; [done|]. split; [done|]. exists raw.
  split; [done|]. split; [done|]. split; [done|]. split; [done|].
  split; [done|].
  intros [Hlen Hwide] H7.
  change (rows (Matrix_column raw 1 6)) with (rows raw) in Hloop.
  rewrite remove_leap_seconds_loop in Hloop by (done || lia).
  injection Hloop as <-. simpl.
  rewrite firstn_all2, drop_ge, app_nil_r by lia.
  split; simpl.
  - by rewrite !length_map.
  - rewrite !Forall_fmap. eapply Forall_impl; [exact Hwide|].
    intros row Hrow. simpl in *.
    pose proof (stored_row_length row ltac:(lia)) as Hl.
    unfold stored_row, radians_row in Hl. exact Hl.
Qed.

(** X6. In a build with ERFA the constructor throws only when reading the
    file throws: not in a schema run, not without a file name, and never
    through [times.at(i)] in its loop over the rows. *)
Theorem constructor_throws_only_for_the_file (config : Config) (e : Exception) :
  EarthRotationIers2010_new false config = Throw e <->
  isCreateSchema config = false /\
  inputfileEOP config <> ""%string /\
  readFileEarthOrientationParameter (inputfileEOP config) = None /\
  e = Collaborator "readFileEarthOrientationParameter".
Proof.
  unfold EarthRotationIers2010_new. split.
  - destruct (isCreateSchema config); [discriminate|].
    destruct (String.eqb_spec (inputfileEOP config) ""); [discriminate|].
    destruct (readFileEarthOrientationParameter _) as [raw|];
      [|by intros [= <-]].
    change (rows (Matrix_column raw 1 6)) with (rows raw).
    destruct (remove_leap_seconds_loop_returns raw) as [E ->]. discriminate.
  - intros (-> & Hname & -> & ->).
    by destruct (String.eqb_spec (inputfileEOP config) "").
Qed.

(** X7. For an object that the constructor returned, a query either
    returns, or throws "No EOPs available" with the query time, or throws
    because [Polynomial::interpolate] throws, or, in a build without ERFA,
    throws "Compiled without ERFA library"; it never throws the
    out-of-range exception of [times.at(0)]. *)
Theorem earthOrientationParameter_outcomes (nolib : bool) (config : Config)
    (self : Object) (timeGPS : Time) :
  EarthRotationIers2010_new nolib config = Ok self ->
  earthOrientationParameter nolib self timeGPS <> Throw StdOutOfRange /\
  (returns (earthOrientationParameter nolib self timeGPS) \/
   earthOrientationParameter nolib self timeGPS
     = Throw (NoEOPsAvailable (Time_dateTimeStr timeGPS)) \/
   earthOrientationParameter nolib self timeGPS
     = Throw (Collaborator "Polynomial::interpolate") \/
   (nolib = true /\
    earthOrientationParameter nolib self timeGPS = Throw CompiledWithoutERFA)).
Proof.
  intros Hnew.
  assert (Hcases :
    returns (earthOrientationParameter nolib self timeGPS) \/
    earthOrientationParameter nolib self timeGPS
      = Throw (NoEOPsAvailable (Time_dateTimeStr timeGPS)) \/
    earthOrientationParameter nolib self timeGPS
      = Throw (Collaborator "Polynomial::interpolate") \/
    (nolib = true /\
     earthOrientationParameter nolib self timeGPS = Throw CompiledWithoutERFA)).
  { destruct nolib; [right; right; right; done|].
    unfold earthOrientationParameter, interpolated.
    destruct (Nat.eqb_spec (Matrix_size (EOP self)) 0) as [|Hsize];
      [left; by eexists|].
    destruct (EarthRotationIers2010_new_nonempty _ _ _ Hnew Hsize)
      as (_ & first & back & Hfirst & Hback).
    unfold at_. rewrite Hfirst, Hback. simpl.
    destruct (_ || _); [right; left; done|].
    destruct (Polynomial_interpolate _ _ _ _ _); simpl;
      [left; by eexists|right; right; left; done]. }
  split; [|exact Hcases].
  destruct Hcases as [[out ->]|[->|[->|[_ ->]]]]; discriminate.
Qed.

(** X8. The truncatedNutation flag decides X, Y and S only: an object and
    the same object with another flag throw the same exception or return
    the same xp, yp, sp, deltaUT and LOD, and the same X, Y, S as well when
    the precession-nutation series give the same values. *)
Theorem truncatedNutation_decides_XYS_only (nolib : bool) (self : Object)
    (truncated : bool) (timeGPS : Time) :
  let other :=
    mkEarthRotationIers2010 (times self) (EOP self) truncated (polynomial self) in
  let timeTT := timeGPS2TT timeGPS in
  match earthOrientationParameter nolib self timeGPS,
        earthOrientationParameter nolib other timeGPS with
  | inr out, inr out' =>
      xp out = xp out' /\ yp out = yp out' /\ sp out = sp out' /\
      deltaUT out = deltaUT out' /\ LOD out = LOD out' /\
      (precession_nutation (useTruncated self) (julian_date1 timeTT)
                           (Time_mjdMod timeTT)
       = precession_nutation truncated (julian_date1 timeTT)
                             (Time_mjdMod timeTT) -> out = out')
  | inl e, inl e' => e = e'
  | _, _ => False
  end.
Proof.
  intros other timeTT. unfold earthOrientationParameter.
  destruct nolib; [done|].
  change (interpolated other timeGPS) with (interpolated self timeGPS).
  destruct (interpolated self timeGPS) as [e|[[[[[xp0 yp0] dut0] lod0] dX] dY]];
    unfold rbind, Ok; [done|].
  destruct (models_fields self timeGPS xp0 yp0 dut0 lod0 dX dY)
    as (Hxp & Hyp & Hsp & Hdut & HLOD & _).
  destruct (models_fields other timeGPS xp0 yp0 dut0 lod0 dX dY)
    as (Hxp' & Hyp' & Hsp' & Hdut' & HLOD' & _).
  rewrite Hxp, Hxp', Hyp, Hyp', Hsp, Hsp', Hdut, Hdut', HLOD, HLOD'.
  repeat split. intros HXYS. unfold models. simpl.
  fold timeTT. by rewrite HXYS.
Qed.

End EarthRotationMore.

(** ** Further properties of the deformation matrix *)

Section DeformationMatrixMore.
Context `{DoubleOps}.
Context {SphericalHarmonics : Type}.
Context `{!@SphericalHarmonicsOps _ SphericalHarmonics}.
Variable (hn ln : Vector) (GM R : Double) (maxDegree : nat).

(** With fewer gravity values than points [gravity.at(k)] throws. *)
Lemma deformationMatrix_throws (point : list Vector3d)
    (gravity_ : list Double) :
  length gravity_ < length point ->
  TidesBase_deformationMatrix point gravity_ hn ln GM R maxDegree
  = Throw StdOutOfRange.
Proof using Type.
  intros Hlen. unfold TidesBase_deformationMatrix.
  replace (length point)
    with (length gravity_ + Datatypes.S (length point - length gravity_ - 1))
    at 2 by lia.
  rewrite seq_app, for_each_app.
  rewrite (for_each_assignments _
             (fun k => match point !! k, gravity_ !! k with
                       | Some p, Some g =>
                           point_writes hn ln GM R maxDegree k p g
                       | _, _ => []
                       end)).
  2:{ intros A k Hk%elem_of_seq.
      destruct (lookup_lt_is_Some_2 point k) as [p Hp]; [lia|].
      destruct (lookup_lt_is_Some_2 gravity_ k) as [g Hg]; [lia|].
      rewrite Hp, Hg. by apply point_body_writes. }
  simpl.
  destruct (lookup_lt_is_Some_2 point (length gravity_)) as [p Hp]; [lia|].
  unfold point_body at 1. unfold at_ at 1. rewrite Hp. simpl.
  destruct (CnmSnm _ _) as [Cnm Snm].
  rewrite Nat.add_1_r. simpl.
  unfold order0_body at 1. unfold at_ at 1.
  by rewrite (lookup_ge_None_2 gravity_ (length gravity_)) by lia.
Qed.


(** The row [3*k+i] after one group of three assignments. *)
Lemma store_disp_row (A : Matrix) k' col d k i :
  i < 3 ->
  cells (store_disp A k' col d) !! (3 * k + i)
  = if decide (k' = k)
    then (fun row => <[col := coordinate i d]> row) <$> cells A !! (3 * k + i)
    else cells A !! (3 * k + i).
Proof using Type.
  intros Hi. unfold store_disp, Matrix_set; simpl.
  destruct (decide (k' = k)) as [->|Hne].
  - destruct i as [|[|[|i]]]; [| | |lia]; simpl.
    + rewrite !list_lookup_alter_ne by lia. by rewrite list_lookup_alter_eq.
    + rewrite list_lookup_alter_ne by lia. rewrite list_lookup_alter_eq.
      rewrite list_lookup_alter_ne by lia. done.
    + rewrite list_lookup_alter_eq. by rewrite !list_lookup_alter_ne by lia.
  - by rewrite !list_lookup_alter_ne by lia.
Qed.

(** The row [3*k+i] after the assignments [ws]: those for the point [k]
    have been made in it, in their order. *)
Lemma assign_all_row (ws : list Assignment) (A : Matrix) k i :
  i < 3 ->
  cells (assign_all A ws) !! (3 * k + i)
  = fold_left (fun row w => if decide (w.1.1 = k)
                            then <[w.1.2 := coordinate i w.2]> row else row)
              ws
    <$> cells A !! (3 * k + i).
Proof using Type.
  intros Hi. revert A; induction ws as [|w ws IH]; intros A.
  - simpl. by destruct (cells A !! _).
  - simpl. rewrite IH, store_disp_row by done.
    destruct (decide (w.1.1 = k)); [|done].
    by destruct (cells A !! _).
Qed.

Lemma fold_assignments_other (ws : list Assignment) k i (row : list Double) :
  (forall w, w ∈ ws -> w.1.1 <> k) ->
  fold_left (fun row w => if decide (w.1.1 = k)
                          then <[w.1.2 := coordinate i w.2]> row else row)
            ws row
  = row.
Proof using Type.
  revert row; induction ws as [|w ws IH]; intros row Hne; [done|].
  simpl. destruct (decide (w.1.1 = k)) as [E|_].
  - by destruct (Hne w (list_elem_of_here _ _)).
  - apply IH. intros w' Hw'. apply Hne. by apply list_elem_of_further.
Qed.

Lemma fold_assignments_same (ws : list (nat * Vector3d)) (k i : nat)
    (row : list Double) :
  fold_left (fun row w => if decide (w.1.1 = k)
                          then <[w.1.2 := coordinate i w.2]> row else row)
            ((fun w => (k, w.1, w.2)) <$> ws) row
  = row_after i ws row.
Proof using Type.
  revert row; induction ws as [|w ws IH]; intros row; [done|].
  simpl. destruct (decide (k = k)); [|done]. apply IH.
Qed.

Lemma row_after_length i (ws : list (nat * Vector3d)) (row : list Double) :
  length (row_after i ws row) = length row.
Proof using Type.
  revert row; induction ws as [|w ws IH]; intros row; [done|].
  change (row_after i (w :: ws) row)
    with (row_after i ws (<[w.1 := coordinate i w.2]> row)).
  by rewrite IH, length_insert.
Qed.

(** The rows of a point in the matrix that [deformationMatrix] returns:
    the assignments for that point, made in a row of zeros. *)
Lemma deformationMatrix_row (point : list Vector3d) (gravity_ : list Double)
    (A : Matrix) k p g i :
  TidesBase_deformationMatrix point gravity_ hn ln GM R maxDegree = Ok A ->
  point !! k = Some p -> gravity_ !! k = Some g -> i < 3 ->
  cells A !! (3 * k + i)
  = Some (row_after i (coefficient_writes hn ln GM R maxDegree p g)
            (replicate (UInt_mul (UInt_add maxDegree 1) (UInt_add maxDegree 1))
                       d_zero)).
Proof using Type.
  intros HA Hp Hg Hi.
  destruct (Nat.le_gt_cases (length point) (length gravity_)) as [Hlen|Hlen];
    [|by rewrite deformationMatrix_throws in HA].
  rewrite deformationMatrix_writes in HA by done. injection HA as <-.
  rewrite assign_all_row by done. simpl.
  rewrite lookup_replicate_2 by (apply lookup_lt_Some in Hp; lia). simpl.
  f_equal. unfold matrix_writes.
  assert (Hfold : forall (l : list nat) row, NoDup l ->
            fold_left (fun row w => if decide (w.1.1 = k)
                                    then <[w.1.2 := coordinate i w.2]> row
                                    else row)
              (l ≫= fun k0 =>
                 match point !! k0, gravity_ !! k0 with
                 | Some p0, Some g0 => point_writes hn ln GM R maxDegree k0 p0 g0
                 | _, _ => []
                 end) row
            = if decide (k ∈ l)
              then row_after i (coefficient_writes hn ln GM R maxDegree p g) row
              else row).
  { induction l as [|k0 l IH]; intros row Hnd.
    - destruct (decide (k ∈ [])) as [Hin|_]; [by apply elem_of_nil in Hin|done].
    - apply NoDup_cons in Hnd as [Hk0 Hnd]. csimpl.
      rewrite fold_left_app, IH by done.
      destruct (decide (k0 = k)) as [->|Hne].
      + rewrite Hp, Hg. unfold point_writes. rewrite fold_assignments_same.
        rewrite decide_False by done.
        by rewrite decide_True by apply list_elem_of_here.
      + rewrite fold_assignments_other.
        * destruct (decide (k ∈ l)) as [Hin|Hin].
          -- by rewrite decide_True by (by apply list_elem_of_further).
          -- rewrite decide_False; [done|].
             intros [E|Hin']%elem_of_cons; [by subst|done].
        * intros w Hw. destruct (point !! k0), (gravity_ !! k0);
            try by apply elem_of_nil in Hw.
          apply list_elem_of_fmap in Hw as (w' & -> & _). done. }
  rewrite Hfold by apply NoDup_seq.
  rewrite decide_True; [done|].
  apply elem_of_seq. apply lookup_lt_Some in Hp. lia.
Qed.

(** X10. The three rows of a point depend on that point and its gravity
    only (and on hn, ln, GM, R, maxDegree): two point sets that hold the
    same point with the same gravity, at whatever indices and among
    whatever other points, get the same three rows for it; in particular
    the rows are those of the matrix built for the point alone.  The rows
    have the length [(maxDegree+1)*(maxDegree+1)] as the code computes it,
    which is (maxDegree+1)^2 when that is a value of [UInt]. *)
Theorem deformationMatrix_rows_of_a_point
    (point point' : list Vector3d) (gravity_ gravity' : list Double)
    (A A' : Matrix) (k k' : nat) (p : Vector3d) (g : Double) :
  TidesBase_deformationMatrix point gravity_ hn ln GM R maxDegree = Ok A ->
  TidesBase_deformationMatrix point' gravity' hn ln GM R maxDegree = Ok A' ->
  point !! k = Some p -> gravity_ !! k = Some g ->
  point' !! k' = Some p -> gravity' !! k' = Some g ->
  forall i, i < 3 ->
    exists row,
      length row = UInt_mul (UInt_add maxDegree 1) (UInt_add maxDegree 1) /\
      (UInt_fits ((Z.of_nat maxDegree + 1) * (Z.of_nat maxDegree + 1)) ->
       length row = (maxDegree + 1) * (maxDegree + 1)) /\
      cells A !! (3 * k + i) = Some row /\
      cells A' !! (3 * k' + i) = Some row.
Proof using Type.
  intros HA HA' Hp Hg Hp' Hg' i Hi. eexists. split; [|split; [|split]].
  3: by eapply deformationMatrix_row.
  - by rewrite row_after_length, length_replicate.
  - intros (_ & Hcols & _)%UInt_columns.
    by rewrite row_after_length, length_replicate.
  - by eapply deformationMatrix_row.
Qed.

End DeformationMatrixMore.

(** ** Further properties of the batch deformation *)

(** An invariant that the body keeps on the elements of the list. *)
Lemma for_each_invariant_in {S T} (P : S -> Prop) (body : S -> T -> result S)
    (l : list T) :
  (forall s x s', x ∈ l -> P s -> body s x = Ok s' -> P s') ->
  forall acc r, P acc -> for_each body acc l = Ok r -> P r.
Proof.
  induction l as [|x l IH]; intros Hstep acc r Hacc; simpl.
  - by intros [= <-].
  - destruct (body acc x) as [e|s1] eqn:E; simpl; [discriminate|].
    apply IH.
    + intros s y s' Hy. apply Hstep. by apply list_elem_of_further.
    + eapply Hstep; eauto. apply list_elem_of_here.
Qed.

(** When a loop returns, its body returned on every element, in a state
    that had the invariant. *)
Lemma for_each_steps {S T} (P : S -> Prop) (body : S -> T -> result S)
    (l : list T) :
  (forall s x s', x ∈ l -> P s -> body s x = Ok s' -> P s') ->
  forall acc r, P acc -> for_each body acc l = Ok r ->
  forall x, x ∈ l -> exists s s', P s /\ body s x = Ok s'.
Proof.
  induction l as [|y l IH]; intros Hstep acc r Hacc Hr x Hx;
    [by apply elem_of_nil in Hx|].
  simpl in Hr. destruct (body acc y) as [e|s1] eqn:E; simpl in Hr; [discriminate|].
  apply elem_of_cons in Hx as [->|Hx]; [by exists acc, s1|].
  apply (IH (fun s z s' Hz => Hstep s z s' (list_elem_of_further _ _ _ Hz))
            s1 r); try done.
  eapply Hstep; eauto. apply list_elem_of_here.
Qed.

Section BatchMore.
Context `{DoubleOps}.
Context {Time Rotary3d EarthRotationPtr EphemeridesPtr SphericalHarmonics : Type}.
Context `{!@SphericalHarmonicsOps _ SphericalHarmonics}.
Local Abbreviation Harmonics :=
  (Time -> Rotary3d -> EarthRotationPtr -> EphemeridesPtr ->
   nat -> nat -> Double -> Double -> result SphericalHarmonics).
Variable (time : list Time) (point : list Vector3d) (rotEarth : list Rotary3d).
Variable (rotation : EarthRotationPtr) (ephemerides : EphemeridesPtr).
Variable (gravity_ : list Double) (hn ln : Vector).

(** The array keeps its shape and all entries outside the first [K]
    rows and [n] columns. *)
Local Abbreviation Framed K n disp d :=
  (same_shape disp d /\
   forall k i, K <= k \/ n <= i -> entry d k i = entry disp k i).

Lemma add_to_disp_Ok (Ax : Vector) (i k : nat) (d d' : list (list Vector3d)) :
  add_to_disp Ax i d k = Ok d' ->
  exists row v, d !! k = Some row /\ row !! i = Some v /\
    d' = <[k := <[i := Vector3d_add v (Ax_block Ax k)]> row]> d.
Proof.
  unfold add_to_disp, at_.
  destruct (d !! k) as [row|] eqn:Hrow; simpl; [|discriminate].
  destruct (row !! i) as [v|] eqn:Hv; simpl; [|discriminate].
  intros [= <-]. by exists row, v.
Qed.

Lemma add_to_disp_framed (Ax : Vector) (K n i k : nat)
    (disp d d' : list (list Vector3d)) :
  k < K -> i < n -> Framed K n disp d ->
  add_to_disp Ax i d k = Ok d' -> Framed K n disp d'.
Proof.
  intros Hk Hi [[Hlen Hrows] Hout] (row & v & Hrow & Hv & ->)%add_to_disp_Ok.
  split; [split|].
  - by rewrite length_insert.
  - intros k'. rewrite <- Hrows. destruct (decide (k' = k)) as [->|Hne].
    + rewrite list_lookup_insert_eq by (by eapply lookup_lt_Some).
      rewrite Hrow. simpl. by rewrite length_insert.
    + by rewrite list_lookup_insert_ne.
  - intros k' i' Hor. rewrite <- Hout by done. unfold entry.
    destruct (decide (k' = k)) as [->|Hne].
    + rewrite list_lookup_insert_eq by (by eapply lookup_lt_Some).
      rewrite Hrow. apply list_lookup_insert_ne. lia.
    + by rewrite list_lookup_insert_ne.
Qed.

Lemma epoch_body_framed (sh : Harmonics) (A : Matrix) (i : nat)
    (disp d d' : list (list Vector3d)) :
  i < length time -> Framed (length point) (length time) disp d ->
  epoch_body sh time point rotEarth rotation ephemerides A d i = Ok d' ->
  Framed (length point) (length time) disp d'.
Proof.
  intros Hi Hd. unfold epoch_body.
  destruct (epoch_Ax _ _ _ _ _ _ _) as [e|Ax]; simpl; [discriminate|].
  apply (for_each_invariant_in
           (fun s => Framed (length point) (length time) disp s)); [|done].
  intros s k s' Hk%elem_of_seq Hs. apply add_to_disp_framed; [lia|done|done].
Qed.

Lemma add_to_disp_shape (Ax : Vector) (i k : nat)
    (disp d d' : list (list Vector3d)) :
  same_shape disp d -> add_to_disp Ax i d k = Ok d' -> same_shape disp d'.
Proof.
  intros [Hlen Hrows] (row & v & Hrow & Hv & ->)%add_to_disp_Ok. split.
  - by rewrite length_insert.
  - intros k'. rewrite <- Hrows. destruct (decide (k' = k)) as [->|Hne].
    + rewrite list_lookup_insert_eq by (by eapply lookup_lt_Some).
      rewrite Hrow. simpl. by rewrite length_insert.
    + by rewrite list_lookup_insert_ne.
Qed.

Lemma epoch_body_shape (sh : Harmonics) (A : Matrix) (i : nat)
    (disp d d' : list (list Vector3d)) :
  same_shape disp d ->
  epoch_body sh time point rotEarth rotation ephemerides A d i = Ok d' ->
  same_shape disp d'.
Proof.
  intros Hd. unfold epoch_body.
  destruct (epoch_Ax _ _ _ _ _ _ _) as [e|Ax]; simpl; [discriminate|].
  apply (for_each_invariant_in (fun s => same_shape disp s)); [|done].
  intros s k s' _ Hs. by apply add_to_disp_shape.
Qed.

Lemma framed_refl K n (disp : list (list Vector3d)) : Framed K n disp disp.
Proof. done. Qed.

Lemma TidesBase_deformation_batch_framed (sh : Harmonics)
    (disp d d' : list (list Vector3d)) :
  Framed (length point) (length time) disp d ->
  TidesBase_deformation_batch sh time point rotEarth rotation ephemerides
    gravity_ hn ln d = Ok d' ->
  Framed (length point) (length time) disp d'.
Proof.
  intros Hd. unfold TidesBase_deformation_batch.
  destruct (_ || _); [by intros [= <-]|].
  destruct (batch_matrix _ _ _ _ _ _ _ _ _) as [e|A]; simpl; [discriminate|].
  apply (for_each_invariant_in
           (fun s => Framed (length point) (length time) disp s)); [|done].
  intros s i s' Hi%elem_of_seq Hs. apply epoch_body_framed; [lia|done].
Qed.

(** X11. When the batch deformation returns, the array has the shape it
    had (as many rows, and as many entries in every row), and every entry
    of a row beyond the points or of a column beyond the epochs is what it
    was.  The same holds for the aggregator over components that inherit
    the method of [TidesBase]. *)
Theorem deformation_batch_frame (disp disp' : list (list Vector3d)) :
  (forall sh : Harmonics,
     TidesBase_deformation_batch sh time point rotEarth rotation ephemerides
       gravity_ hn ln disp = Ok disp' ->
     same_shape disp disp' /\
     forall k i, length point <= k \/ length time <= i ->
       entry disp' k i = entry disp k i) /\
  (forall shs : list Harmonics,
     Tides_deformation_batch (TidesBase_inherit <$> shs) time point rotEarth
       rotation ephemerides gravity_ hn ln disp = Ok disp' ->
     same_shape disp disp' /\
     forall k i, length point <= k \/ length time <= i ->
       entry disp' k i = entry disp k i).
Proof.
  split.
  - intros sh. apply TidesBase_deformation_batch_framed, framed_refl.
  - intros shs. unfold Tides_deformation_batch.
    apply (for_each_invariant_in
             (fun s => Framed (length point) (length time) disp s));
      [|apply framed_refl].
    intros s c s' (sh & -> & _)%list_elem_of_fmap Hs. simpl.
    by apply TidesBase_deformation_batch_framed.
Qed.

(** X12. With at least one time and one point the batch deformation
    returns only if there is a rotation for every time, a gravity value for
    every point, a row of [disp] for every point and in each of these rows
    an entry for every time: otherwise one of the range-checked accesses
    throws (or a collaborator does). *)
Theorem deformation_batch_needs (sh : Harmonics)
    (disp disp' : list (list Vector3d)) :
  length time <> 0 -> length point <> 0 ->
  TidesBase_deformation_batch sh time point rotEarth rotation ephemerides
    gravity_ hn ln disp = Ok disp' ->
  length time <= length rotEarth /\
  length point <= length gravity_ /\
  length point <= length disp /\
  (forall k row, k < length point -> disp !! k = Some row ->
                 length time <= length row).
Proof.
  intros Ht Hp. unfold TidesBase_deformation_batch.
  rewrite (proj2 (Nat.eqb_neq _ 0) Ht), (proj2 (Nat.eqb_neq _ 0) Hp). simpl.
  destruct (batch_matrix _ _ _ _ _ _ _ _ _) as [e|A] eqn:HA; simpl; [discriminate|].
  intros Hloop.
  (* every epoch was processed in a state of the shape of [disp] *)
  assert (Hepochs : forall i, i < length time ->
            exists s s', same_shape disp s /\
              epoch_body sh time point rotEarth rotation ephemerides A s i = Ok s').
  { intros i Hi.
    apply (for_each_steps (fun s => same_shape disp s)
             (epoch_body sh time point rotEarth rotation ephemerides A)
             (seq 0 (length time))
             (fun s j s' _ Hs Hb => epoch_body_shape sh A j disp s s' Hs Hb)
             disp disp'); [done|done|].
    apply elem_of_seq. lia. }
  (* every point was processed, in every epoch, in such a state *)
  assert (Hpoints : forall i k, i < length time -> k < length point ->
            exists s row, same_shape disp s /\ s !! k = Some row /\
                          i < length row).
  { intros i k Hi Hk. destruct (Hepochs i Hi) as (s & s' & Hs & Hb).
    unfold epoch_body in Hb.
    destruct (epoch_Ax _ _ _ _ _ _ _) as [e|Ax]; simpl in Hb; [discriminate|].
    destruct (for_each_steps (fun d => same_shape disp d)
                (add_to_disp Ax i) (seq 0 (length point))
                (fun d j d' _ Hd Hb' => add_to_disp_shape Ax i j disp d d' Hd Hb')
                s s' Hs Hb k) as (d & d' & Hd & Hstep); [apply elem_of_seq; lia|].
    apply add_to_disp_Ok in Hstep as (row & v & Hrow & Hv & _).
    exists d, row. split; [done|]. split; [done|]. by eapply lookup_lt_Some. }
  split; [|split; [|split]].
  - destruct (Hepochs (length time - 1)) as (s & s' & _ & Hb); [lia|].
    unfold epoch_body, epoch_Ax, at_ in Hb.
    destruct (time !! (length time - 1)); simpl in Hb; [|discriminate].
    destruct (rotEarth !! (length time - 1)) eqn:Hrot; simpl in Hb; [|discriminate].
    apply lookup_lt_Some in Hrot. lia.
  - unfold batch_matrix in HA.
    destruct (at_ time 0); simpl in HA; [discriminate|].
    destruct (at_ rotEarth 0); simpl in HA; [discriminate|].
    destruct (harmonics _ _ _ _ _) as [e|harm]; simpl in HA; [discriminate|].
    destruct (Nat.le_gt_cases (length point) (length gravity_)) as [Hlen|Hlen];
      [done|]. by rewrite deformationMatrix_throws in HA.
  - destruct (Hpoints 0 (length point - 1)) as (s & row & [Hlen _] & Hrow & _);
      [lia|lia|].
    apply lookup_lt_Some in Hrow. lia.
  - intros k row Hk Hrow.
    destruct (Hpoints (length time - 1) k) as (s & row' & [_ Hrows] & Hrow' & Hi);
      [lia|done|].
    specialize (Hrows k). rewrite Hrow, Hrow' in Hrows. simpl in Hrows.
    injection Hrows as Hrows. lia.
Qed.

End BatchMore.

(** *** The further properties, evaluated *)

Lemma Tides_deformation_sum_exact :
  let A := [constant_tide (H := exactR) 1%R] in
  let B := [constant_tide (H := exactR) 2%R; constant_tide (H := exactR) 3%R] in
  Tides_deformation (H := exactR) tt origin tt tt tt (A ++ B) 1%R [] []
  = sum_results Vector3d_add
      (Tides_deformation (H := exactR) tt origin tt tt tt A 1%R [] [])
      (Tides_deformation (H := exactR) tt origin tt tt tt B 1%R [] []).
Proof.
  intros A B.
  refine (proj2 (proj2 (proj2
    (Tides_deformation_sum (H := exactR) tt origin tt tt tt A B 1%R [] []))) _ _).
  - intros a b c. apply Rplus_assoc.
  - intros a. apply Rplus_0_r.
Defined.

(** A component without EOPs between two that return. *)
Lemma Tides_first_exception_example :
  Tides_potential (H := binary64) tt origin tt tt tt
    ([constant_tide 1%float] ++ throwing_tide (NoEOPsAvailable "t")
                             :: [constant_tide 2%float])
  = Throw (NoEOPsAvailable "t").
Proof.
  refine (proj1 (Tides_first_exception (H := binary64) tt origin tt tt tt
                   [constant_tide 1%float] [constant_tide 2%float]
                   (throwing_tide (NoEOPsAvailable "t"))
                   (NoEOPsAvailable "t") 1%float [] []) _ _).
  - constructor; [|constructor]. by exists 1%float.
  - reflexivity.
Defined.

Section TwoPoints.
Existing Instance harmonics64.

Lemma Tides_sphericalHarmonics_two_components :
  Tides_sphericalHarmonics tt tt tt tt
    [TidesBase_inherit test_harmonics; TidesBase_inherit test_harmonics]
    1 0 test_GM test_R
  = Ok (SH_add test_field test_field).
Proof.
  refine (proj1 (proj2 (Tides_sphericalHarmonics_nonempty (H := binary64) tt tt tt tt
                          (TidesBase_inherit test_harmonics)
                          [TidesBase_inherit test_harmonics]
                          1 0 test_GM test_R))
                test_field [test_field] _ _).
  - reflexivity.
  - constructor; [reflexivity|constructor].
Defined.

Lemma Tides_of_inherited_methods_two_components :
  Tides_potential tt test_p tt tt tt
    (TidesBase_inherit <$> [test_harmonics; test_harmonics])
  = Ok (fold_left PrimFloat.add
          [SH_potential test_field test_p;
           SH_potential test_field test_p]
          0%float).
Proof.
  refine (proj1 (Tides_of_inherited_methods (H := binary64) tt test_p
                   tt tt tt [test_harmonics; test_harmonics]
                   [test_field; test_field] 9.8%float test_hn test_ln _)).
  constructor; [reflexivity|]. constructor; [reflexivity|constructor].
Defined.


(** The rows of the point (R, 0, 0): alone, and as second of two points. *)
Lemma deformationMatrix_rows_of_a_point_example :
  exists row,
    cells test_matrix1 !! 0 = Some row /\ cells test_matrix2 !! 3 = Some row.
Proof.
  destruct (deformationMatrix_rows_of_a_point (H := binary64) test_hn test_ln test_GM test_R 1
              test_point test_point2 test_gravity test_gravity2
              test_matrix1 test_matrix2 0 1
              test_p 9.8%float)
    with (i := 0) as (row & _ & _ & H1 & H2);
    [vm_compute; reflexivity | vm_compute; reflexivity
    | reflexivity | reflexivity | reflexivity | reflexivity | lia |].
  exists row. split; [exact H1|exact H2].
Defined.

Lemma deformation_batch_frame_example : same_shape test_disp test_disp_after.
Proof.
  refine (proj1 (proj1 (deformation_batch_frame (H := binary64) [tt] test_point [tt] tt tt
                          test_gravity test_hn test_ln test_disp test_disp_after)
                       test_harmonics _)).
  vm_compute. reflexivity.
Defined.

Lemma deformation_batch_needs_example :
  length test_point <= length test_gravity /\
  length test_point <= length test_disp.
Proof.
  destruct (deformation_batch_needs (H := binary64) [tt] test_point [tt] tt tt
              test_gravity test_hn test_ln test_harmonics
              test_disp test_disp_after)
    as (_ & Hg & Hd & _); [discriminate|discriminate|vm_compute; reflexivity|].
  split; [exact Hg|exact Hd].
Defined.

End TwoPoints.

Section LeapSecondMore.
Existing Instance leap_second_world.

Lemma constructor_invariants_leap_file :
  length (times leap_object) = rows (EOP leap_object) /\
  columns (EOP leap_object) = 6 /\
  Matrix_wf (EOP leap_object).
Proof.
  destruct (constructor_invariants false leap_config leap_object)
    as (Hlen & _ & [(Hempty & _)|(_ & _ & raw & Hread & _ & _ & Hcols & _ & Hwf)]);
    [vm_compute; reflexivity|discriminate|].
  injection Hread as <-.
  split; [exact Hlen|]. split; [exact Hcols|].
  apply Hwf; [|reflexivity].
  split; [reflexivity|]. repeat constructor.
Defined.

Lemma earthOrientationParameter_outcomes_leap_file :
  earthOrientationParameter false leap_object before_file <> Throw StdOutOfRange.
Proof.
  refine (proj1 (earthOrientationParameter_outcomes false leap_config leap_object
                   before_file _)).
  vm_compute. reflexivity.
Defined.

End LeapSecondMore.
